(** * Parallel AES-CTR (the OpenMP variants of tiny-AES-c): a shallow embedding

    The development embeds the counter arithmetic [IncrementIvBy] and the
    four OpenMP counter-mode transforms

      - [AES_CTR_xcrypt_buffer_openmp]               (aes_openmp.c)
      - [AES_CTR_xcrypt_buffer_openmp_nowait]        (aes_openmp_nowait.c)
      - [AES_CTR_xcrypt_buffer_openmp_shared_ctx]    (aes_openmp_shared_ctx.c)
      - [AES_CTR_xcrypt_buffer_openmp_false_sharing] (aes_openmp_false_sharing.c)

    Bytes ([uint8_t]) and [size_t] values are integers in [Z] with the
    truncations of C written out; arrays are lists read with [!!] and
    updated with [<[ _ := _ ]>]; an access outside an array is a [Fault].
    The block cipher ([AES_ECB_encrypt], aes.c) is a parameter.

    A parallel region is run as a trace: the list of the loop iterations in
    the order in which the team executes them, each with the thread that
    runs it. The statements about the transforms hold for every trace that
    the work-sharing loop can produce. *)

From Stdlib Require Import ZArith Lia.
From stdpp Require Import base tactics option numbers list.

Local Open Scope Z_scope.

(** ** Part I: definitions *)

(** *** Machine integers *)

Module CInt.

(** [uint8_t] conversion. *)
Definition u8 (x : Z) : Z := x mod 256.

(** [size_t] on the 64-bit platform of the benchmark. *)
Definition SIZE_BITS : Z := 64.

Definition size_t (x : Z) : Z := x mod 2 ^ SIZE_BITS.

Definition is_byte (x : Z) : Prop := 0 <= x < 256.

Definition is_size_t (x : Z) : Prop := 0 <= x < 2 ^ SIZE_BITS.

(** [a ^ b] on two promoted bytes, stored back into a [uint8_t]. *)
Definition xor8 (a b : Z) : Z := u8 (Z.lxor a b).

End CInt.
Import CInt.

(** Modelled from the spec: [AES_BLOCKLEN] of aes.h, which is not among the
    sources. The counter is 128 bits wide and a block is as long as the
    counter: 16 bytes (aes_openmp_false_sharing.c says so as well:
    "AES_BLOCKLEN is 16 bytes"). *)
Definition AES_BLOCKLEN : nat := 16.

(** *** Counter arithmetic *)

(** The loop of [IncrementIvBy]; [n] is [i + 1], so that [n = 0] is the exit
    [i < 0].

    <<
      for (int i = (AES_BLOCKLEN - 1); i >= 0 && carry > 0; --i) {
        size_t sum = Iv[i] + (carry & 0xFF);
        Iv[i] = (uint8_t)(sum & 0xFF);
        carry = (carry >> 8) + (sum >> 8);
      }
    >> *)
Fixpoint IncrementIvBy_loop (n : nat) (Iv : list Z) (carry : Z) : list Z :=
  match n with
  | O => Iv
  | S i =>
      if carry >? 0 then
        let sum := size_t (nth i Iv 0 + Z.land carry 255) in
        let Iv' := <[ i := u8 (Z.land sum 255) ]> Iv in
        IncrementIvBy_loop i Iv' (size_t (Z.shiftr carry 8 + Z.shiftr sum 8))
      else Iv
  end.

(** [static void IncrementIvBy(uint8_t* Iv, size_t blocks)], the same in
    the four files. *)
Definition IncrementIvBy (Iv : list Z) (blocks : Z) : list Z :=
  IncrementIvBy_loop AES_BLOCKLEN Iv blocks.

(** The counter read as an unsigned big-endian integer, and back. *)
Definition be_decode (l : list Z) : Z := foldl (fun acc b => acc * 256 + b) 0 l.

Fixpoint be_encode (n : nat) (v : Z) : list Z :=
  match n with
  | O => []
  | S n' => be_encode n' (v / 256) ++ [v mod 256]
  end.

(** A counter, or any block: [AES_BLOCKLEN] bytes. *)
Definition is_block (l : list Z) : Prop :=
  length l = AES_BLOCKLEN /\ Forall is_byte l.

(** The counter arithmetic as the specification words it: the counter is an
    unsigned big-endian integer of 16 bytes, [k] is added, and the sum wraps
    at [2^128]. *)
Definition counter_add (iv : list Z) (k : Z) : list Z :=
  be_encode AES_BLOCKLEN ((be_decode iv + k) mod 2 ^ 128).

(** *** Memory accesses *)

(** An access outside the bounds of an array is undefined behaviour in C; the
    embedding stops with a [Fault] that names the array. *)
Inductive fault : Type :=
  | BufferOutOfBounds      (* the caller's [buf] *)
  | ScratchOutOfBounds     (* [thread_ivs] or [thread_buffers] *)
  | ArrayOutOfBounds.      (* any other fixed-size array *)

Inductive result (A : Type) : Type :=
  | Ok (a : A)
  | Fault (f : fault).
Arguments Ok {A} a.
Arguments Fault {A} f.

Definition bind {A B} (r : result A) (k : A -> result B) : result B :=
  match r with
  | Ok a => k a
  | Fault f => Fault f
  end.

Notation "'let*' p ':=' e 'in' k" := (bind e (fun p => k))
  (at level 10, p pattern, e at level 200, k at level 200, only parsing).

(** [a[i]] *)
Definition load (err : fault) (a : list Z) (i : Z) : result Z :=
  match a !! Z.to_nat i with
  | Some b => Ok b
  | None => Fault err
  end.

(** [a[i] = v] *)
Definition store (err : fault) (a : list Z) (i : Z) (v : Z) : result (list Z) :=
  if decide (Z.to_nat i < length a)%nat
  then Ok (<[ Z.to_nat i := v ]> a)
  else Fault err.

(** [buf[i] ^= k], also written [buf[i] = (buf[i] ^ k)]. *)
Definition xor_store (buf : list Z) (i : Z) (k : Z) : result (list Z) :=
  let* b := load BufferOutOfBounds buf i in
  store BufferOutOfBounds buf i (xor8 b k).

(** [memcpy(dst, src, n)] *)
Definition memcpy (dst src : list Z) (n : nat) : result (list Z) :=
  if decide (n <= length src /\ n <= length dst)%nat
  then Ok (take n src ++ drop n dst)
  else Fault ArrayOutOfBounds.

(** A local array of [n] bytes. Its contents are indeterminate until written;
    every use below overwrites the whole array before reading it. *)
Definition local_array (n : nat) : list Z := replicate n 0.

(** [for (i = lo; <count more iterations>; ++i) body], the loop state threaded
    through the iterations. *)
Fixpoint for_range {S : Type} (count : nat) (i : Z)
    (body : Z -> S -> result S) (s : S) : result S :=
  match count with
  | O => Ok s
  | Datatypes.S c => let* s' := body i s in for_range c (i + 1) body s'
  end.

(** *** The work-sharing loop *)

(** An iteration of the [omp for] loop as it is executed: the thread that
    runs it ([omp_get_thread_num()]) and the block index. *)
Definition event : Type := nat * nat.

(** [#pragma omp for] over a team: the iterations in the order in which the
    team executes them. Which traces a team can produce is [team_trace]. *)
Fixpoint omp_for {S : Type} (tr : list event)
    (body : nat -> Z -> S -> result S) (s : S) : result S :=
  match tr with
  | [] => Ok s
  | (thread_id, block_idx) :: tr' =>
      let* s' := body thread_id (Z.of_nat block_idx) s in
      omp_for tr' body s'
  end.

(** A trace of the loop over [num_blocks] iterations run by a team of
    [num_workers] threads: every iteration is run by a thread of the team,
    on a block of the loop; the work-sharing construct hands out every
    iteration, and none twice. The schedule and the interleaving of the
    threads are free. *)
Definition team_trace (num_workers num_blocks : nat) (tr : list event) : Prop :=
  Forall (fun e : event => (e.1 < num_workers)%nat /\ (e.2 < num_blocks)%nat) tr /\
  NoDup tr.*2 /\
  Forall (fun b => b ∈ tr.*2) (seq 0 num_blocks).

#[global] Instance team_trace_dec W n tr : Decision (team_trace W n tr).
Proof. unfold team_trace. apply _. Defined.

(** *** The counter-mode transforms *)

(** Modelled from the spec: [struct AES_ctx] of aes.h, which is not among
    the sources. The context owns a key schedule and a mutable 128-bit
    big-endian counter; they are the fields [ctx->RoundKey] (of
    [AES_keyExpSize] bytes) and [ctx->Iv] (of [AES_BLOCKLEN] bytes) that the
    transforms read and write. *)
Record AES_ctx : Type := mkCtx { RoundKey : list Z; Iv : list Z }.

(** aes_openmp_false_sharing.c: the capacity of the shared scratch arrays. *)
Definition MAX_THREADS : nat := 256.

(** aes_openmp_false_sharing.c: the two file-scope arrays
    [thread_buffers[MAX_THREADS][AES_BLOCKLEN]] and
    [thread_ivs[MAX_THREADS][AES_BLOCKLEN]]. *)
Record scratch : Type := mkScratch {
  thread_buffers : list (list Z);
  thread_ivs : list (list Z)
}.

(** [thread_ivs[thread_id]], [thread_buffers[thread_id]]: a row of a scratch
    array. *)
Definition row (a : list (list Z)) (thread_id : nat) : result (list Z) :=
  match a !! thread_id with
  | Some r => Ok r
  | None => Fault ScratchOutOfBounds
  end.

(** The four entry points. *)
Inductive strategy : Type :=
  | openmp
  | openmp_nowait
  | openmp_shared_ctx
  | openmp_false_sharing.

Section CTR.

(** aes.h: the size of the key schedule (176, 208 or 240). *)
Variable AES_keyExpSize : nat.

(** aes.c: [AES_ECB_encrypt(ctx, buf)] replaces the 16-byte block [buf] by
    its encryption under the key schedule [ctx->RoundKey]. *)
Variable AES_ECB_encrypt : list Z -> list Z -> list Z.

(** The XOR of the encrypted counter into the block of the buffer.

    <<
      for (i = 0; i < AES_BLOCKLEN; ++i)
        buf[buf_idx + i] ^= buffer[i];
    >> *)
Definition xor_block (buffer : list Z) (buf_idx : Z) (buf : list Z) : result (list Z) :=
  for_range AES_BLOCKLEN 0
    (fun i buf =>
       let* k := load ArrayOutOfBounds buffer i in
       xor_store buf (size_t (buf_idx + i)) k)
    buf.

(** The body of the block loop shared by aes_openmp.c, aes_openmp_nowait.c
    and aes_openmp_shared_ctx.c; [RoundKey_used] is the key schedule the
    variant encrypts with. [thread_iv] and [buffer] are private to the
    thread, and written in full before they are read.

    <<
      memcpy(thread_iv, initial_iv, AES_BLOCKLEN);
      IncrementIvBy(thread_iv, block_idx);
      memcpy(buffer, thread_iv, AES_BLOCKLEN);
      AES_ECB_encrypt(&thread_local_ctx, buffer);
      size_t buf_idx = block_idx * AES_BLOCKLEN;
      for (i = 0; i < AES_BLOCKLEN; ++i)
        buf[buf_idx + i] ^= buffer[i];
    >> *)
Definition block_body (RoundKey_used initial_iv : list Z)
    (block_idx : Z) (buf : list Z) : result (list Z) :=
  let* thread_iv := memcpy (local_array AES_BLOCKLEN) initial_iv AES_BLOCKLEN in
  let thread_iv := IncrementIvBy thread_iv block_idx in
  let* buffer := memcpy (local_array AES_BLOCKLEN) thread_iv AES_BLOCKLEN in
  let buffer := AES_ECB_encrypt RoundKey_used buffer in
  let buf_idx := size_t (block_idx * Z.of_nat AES_BLOCKLEN) in
  xor_block buffer buf_idx buf.

(** The sequential tail of every variant.

    <<
      memcpy(buffer, ctx->Iv, AES_BLOCKLEN);
      AES_ECB_encrypt(&remainder_ctx, buffer);
      uint8_t bi = 0;
      for (i = (num_blocks * AES_BLOCKLEN); i < length; ++i, ++bi)
        buf[i] = (buf[i] ^ buffer[bi]);
      IncrementIvBy(ctx->Iv, 1);
    >> *)
Definition remainder (RoundKey_used : list Z) (ctx : AES_ctx)
    (num_blocks length : Z) (buf : list Z) : result (AES_ctx * list Z) :=
  let* buffer := memcpy (local_array AES_BLOCKLEN) (Iv ctx) AES_BLOCKLEN in
  let buffer := AES_ECB_encrypt RoundKey_used buffer in
  let lo := size_t (num_blocks * Z.of_nat AES_BLOCKLEN) in
  let* (buf, _) :=
    for_range (Z.to_nat (length - lo)) lo
      (fun i '(buf, bi) =>
         let* k := load ArrayOutOfBounds buffer bi in
         let* buf := xor_store buf i k in
         Ok (buf, u8 (bi + 1)))
      (buf, 0) in
  Ok (mkCtx (RoundKey ctx) (IncrementIvBy (Iv ctx) 1), buf).

(** [struct AES_ctx c; memcpy(c.RoundKey, ctx->RoundKey, AES_keyExpSize);]
    Every thread of the team makes the same copy. *)
Definition copy_RoundKey (ctx : AES_ctx) : result (list Z) :=
  memcpy (local_array AES_keyExpSize) (RoundKey ctx) AES_keyExpSize.

(** aes_openmp.c *)
Definition AES_CTR_xcrypt_buffer_openmp (tr : list event)
    (ctx : AES_ctx) (buf : list Z) (length : Z) : result (AES_ctx * list Z) :=
  let num_blocks := length / Z.of_nat AES_BLOCKLEN in
  let* initial_iv := memcpy (local_array AES_BLOCKLEN) (Iv ctx) AES_BLOCKLEN in
  let* thread_local_RoundKey := copy_RoundKey ctx in
  let* buf :=
    omp_for tr (fun _ block_idx buf =>
                  block_body thread_local_RoundKey initial_iv block_idx buf) buf in
  let* iv := memcpy (Iv ctx) initial_iv AES_BLOCKLEN in
  let ctx := mkCtx (RoundKey ctx) (IncrementIvBy iv num_blocks) in
  if decide (length mod Z.of_nat AES_BLOCKLEN <> 0) then
    let* remainder_RoundKey := copy_RoundKey ctx in
    remainder remainder_RoundKey ctx num_blocks length buf
  else Ok (ctx, buf).

(** aes_openmp_nowait.c: the same statements; [nowait] drops the barrier
    of the loop only, and the parallel region still ends in one. *)
Definition AES_CTR_xcrypt_buffer_openmp_nowait (tr : list event)
    (ctx : AES_ctx) (buf : list Z) (length : Z) : result (AES_ctx * list Z) :=
  let num_blocks := length / Z.of_nat AES_BLOCKLEN in
  let* initial_iv := memcpy (local_array AES_BLOCKLEN) (Iv ctx) AES_BLOCKLEN in
  let* thread_local_RoundKey := copy_RoundKey ctx in
  let* buf :=
    omp_for tr (fun _ block_idx buf =>
                  block_body thread_local_RoundKey initial_iv block_idx buf) buf in
  let* iv := memcpy (Iv ctx) initial_iv AES_BLOCKLEN in
  let ctx := mkCtx (RoundKey ctx) (IncrementIvBy iv num_blocks) in
  if decide (length mod Z.of_nat AES_BLOCKLEN <> 0) then
    let* remainder_RoundKey := copy_RoundKey ctx in
    remainder remainder_RoundKey ctx num_blocks length buf
  else Ok (ctx, buf).

(** aes_openmp_shared_ctx.c: no copy of the key schedule, every encryption
    reads [ctx->RoundKey]. *)
Definition AES_CTR_xcrypt_buffer_openmp_shared_ctx (tr : list event)
    (ctx : AES_ctx) (buf : list Z) (length : Z) : result (AES_ctx * list Z) :=
  let num_blocks := length / Z.of_nat AES_BLOCKLEN in
  let* initial_iv := memcpy (local_array AES_BLOCKLEN) (Iv ctx) AES_BLOCKLEN in
  let* buf :=
    omp_for tr (fun _ block_idx buf =>
                  block_body (RoundKey ctx) initial_iv block_idx buf) buf in
  let* iv := memcpy (Iv ctx) initial_iv AES_BLOCKLEN in
  let ctx := mkCtx (RoundKey ctx) (IncrementIvBy iv num_blocks) in
  if decide (length mod Z.of_nat AES_BLOCKLEN <> 0) then
    remainder (RoundKey ctx) ctx num_blocks length buf
  else Ok (ctx, buf).

(** aes_openmp_false_sharing.c: the body of the block loop, with the
    scratch counter and block in the rows of the shared arrays that the
    thread id selects.

    <<
      uint8_t* my_iv = thread_ivs[thread_id];
      uint8_t* my_buffer = thread_buffers[thread_id];
      memcpy(my_iv, initial_iv, AES_BLOCKLEN);
      IncrementIvBy(my_iv, block_idx);
      memcpy(my_buffer, my_iv, AES_BLOCKLEN);
      AES_ECB_encrypt(&thread_local_ctx, my_buffer);
      size_t buf_idx = block_idx * AES_BLOCKLEN;
      for (i = 0; i < AES_BLOCKLEN; ++i)
        buf[buf_idx + i] ^= my_buffer[i];
    >> *)
Definition block_body_false_sharing (RoundKey_used initial_iv : list Z)
    (thread_id : nat) (block_idx : Z) (st : scratch * list Z)
    : result (scratch * list Z) :=
  let '(sc, buf) := st in
  let* my_iv := row (thread_ivs sc) thread_id in
  let* my_buffer := row (thread_buffers sc) thread_id in
  let* my_iv := memcpy my_iv initial_iv AES_BLOCKLEN in
  let my_iv := IncrementIvBy my_iv block_idx in
  let* my_buffer := memcpy my_buffer my_iv AES_BLOCKLEN in
  let my_buffer := AES_ECB_encrypt RoundKey_used my_buffer in
  let sc := mkScratch (<[ thread_id := my_buffer ]> (thread_buffers sc))
                      (<[ thread_id := my_iv ]> (thread_ivs sc)) in
  let buf_idx := size_t (block_idx * Z.of_nat AES_BLOCKLEN) in
  let* buf := xor_block my_buffer buf_idx buf in
  Ok (sc, buf).

(** aes_openmp_false_sharing.c; the scratch arrays are file-scope state, so
    a call takes them as it finds them and leaves them for the next. *)
Definition AES_CTR_xcrypt_buffer_openmp_false_sharing (tr : list event)
    (sc : scratch) (ctx : AES_ctx) (buf : list Z) (length : Z)
    : result (scratch * AES_ctx * list Z) :=
  let num_blocks := length / Z.of_nat AES_BLOCKLEN in
  let* initial_iv := memcpy (local_array AES_BLOCKLEN) (Iv ctx) AES_BLOCKLEN in
  let* thread_local_RoundKey := copy_RoundKey ctx in
  let* (sc, buf) :=
    omp_for tr (block_body_false_sharing thread_local_RoundKey initial_iv)
            (sc, buf) in
  let* iv := memcpy (Iv ctx) initial_iv AES_BLOCKLEN in
  let ctx := mkCtx (RoundKey ctx) (IncrementIvBy iv num_blocks) in
  if decide (length mod Z.of_nat AES_BLOCKLEN <> 0) then
    let* remainder_RoundKey := copy_RoundKey ctx in
    let* (ctx, buf) := remainder remainder_RoundKey ctx num_blocks length buf in
    Ok (sc, ctx, buf)
  else Ok (sc, ctx, buf).

(** The four transforms behind one name. Only the false-sharing variant
    touches the scratch arrays. *)
Definition ctrTransform (s : strategy) (tr : list event) (sc : scratch)
    (ctx : AES_ctx) (buf : list Z) (length : Z)
    : result (scratch * AES_ctx * list Z) :=
  match s with
  | openmp =>
      let* (ctx, buf) := AES_CTR_xcrypt_buffer_openmp tr ctx buf length in
      Ok (sc, ctx, buf)
  | openmp_nowait =>
      let* (ctx, buf) := AES_CTR_xcrypt_buffer_openmp_nowait tr ctx buf length in
      Ok (sc, ctx, buf)
  | openmp_shared_ctx =>
      let* (ctx, buf) := AES_CTR_xcrypt_buffer_openmp_shared_ctx tr ctx buf length in
      Ok (sc, ctx, buf)
  | openmp_false_sharing =>
      AES_CTR_xcrypt_buffer_openmp_false_sharing tr sc ctx buf length
  end.

(** Modelled from the spec: the serial reference [AES_CTR_xcrypt_buffer]
    (aes.c is not among the sources). Counter mode encrypts successive
    counter values and XORs the keystream into the buffer, in block
    order; the counter advances, by the counter arithmetic of the
    specification, once for every block that is started. *)
Definition AES_CTR_xcrypt_buffer (ctx : AES_ctx) (buf : list Z) (length : Z)
    : result (AES_ctx * list Z) :=
  let* (iv, _, _, buf) :=
    for_range (Z.to_nat length) 0
      (fun i '(iv, buffer, bi, buf) =>
         let '(iv, buffer, bi) :=
           if decide (bi = Z.of_nat AES_BLOCKLEN)
           then (counter_add iv 1, AES_ECB_encrypt (RoundKey ctx) iv, 0)
           else (iv, buffer, bi) in
         let* k := load ArrayOutOfBounds buffer bi in
         let* buf := xor_store buf i k in
         Ok (iv, buffer, bi + 1, buf))
      (Iv ctx, local_array AES_BLOCKLEN, Z.of_nat AES_BLOCKLEN, buf) in
  Ok (mkCtx (RoundKey ctx) iv, buf).

End CTR.

(** benchmark.c: [int thread_counts[] = {1, 2, 4, 8, 16};], the worker counts
    that the harness passes to [omp_set_num_threads]. *)
Definition thread_counts : list nat := [1; 2; 4; 8; 16]%nat.


(** *** The static schedule *)

Module WorkPartitioner.

(** Modelled from the spec: the Work Partitioner. The sources hand the
    division of the block loop to the OpenMP runtime with
    [schedule(static)]; the runtime is not among the sources. The
    specification: contiguous ranges whose union is [[0, num_blocks)], an
    even split with the remainder blocks distributed to the first ranges;
    workers in excess of the blocks receive empty ranges. *)
Definition range_start (num_blocks num_workers t : nat) : nat :=
  (t * (num_blocks / num_workers) + Nat.min t (num_blocks mod num_workers))%nat.

(** Modelled from the spec: the size of the range of worker [t], the even
    share and one block of the remainder for each of the first workers. *)
Definition range_size (num_blocks num_workers t : nat) : nat :=
  (num_blocks / num_workers +
     (if decide (t < num_blocks mod num_workers)%nat then 1 else 0))%nat.

(** Modelled from the spec: the end of the range of worker [t]. *)
Definition range_end (num_blocks num_workers t : nat) : nat :=
  (range_start num_blocks num_workers t + range_size num_blocks num_workers t)%nat.

(** Modelled from the spec: the half-open range [[start, end)] of worker
    [t], a WorkItem. *)
Definition work_range (num_blocks num_workers t : nat) : list nat :=
  seq (range_start num_blocks num_workers t) (range_size num_blocks num_workers t).

(** Modelled from the spec: the ranges of all the workers, in order. *)
Definition partition (num_blocks num_workers : nat) : list (list nat) :=
  work_range num_blocks num_workers <$> seq 0 num_workers.

End WorkPartitioner.
Import WorkPartitioner.

(** The iterations that thread [t] runs in a trace, in order. *)
Definition thread_iterations (t : nat) (tr : list event) : list nat :=
  (filter (fun e : event => e.1 = t) tr).*2.

(** A trace under the static schedule: the team has at least one thread
    (a parallel region is never run by an empty team), every thread runs
    exactly the blocks of its range, in increasing order; the threads
    interleave freely. *)
Definition static_trace (num_blocks num_workers : nat) (tr : list event) : Prop :=
  (1 <= num_workers)%nat /\
  Forall (fun e : event => (e.1 < num_workers)%nat) tr /\
  Forall (fun t => thread_iterations t tr = work_range num_blocks num_workers t)
         (seq 0 num_workers).

#[global] Instance static_trace_dec n W tr : Decision (static_trace n W tr).
Proof. unfold static_trace. apply _. Defined.

(** The static trace in which the threads run one after the other. *)
Definition static_schedule (num_blocks num_workers : nat) : list event :=
  t ← seq 0 num_workers; pair t <$> work_range num_blocks num_workers t.

(** *** What a call computes *)

(** [buf] with the keystream byte [ks j] XORed into every position [j] that
    satisfies [P]. *)
Definition xor_where (P : nat -> Prop) `{!forall j, Decision (P j)}
    (ks : nat -> Z) (buf : list Z) : list Z :=
  imap (fun j b => if decide (P j) then xor8 b (ks j) else b) buf.

(** [num_blocks = length / AES_BLOCKLEN], as a number of loop iterations. *)
Definition num_blocks_of (len : Z) : nat := Z.to_nat (len / Z.of_nat AES_BLOCKLEN).

(** The counter after a call: advanced by the blocks started. *)
Definition ctr_context (ctx : AES_ctx) (len : Z) : AES_ctx :=
  mkCtx (RoundKey ctx) (counter_add (Iv ctx) ((len + 15) / 16)).

(** The shared scratch arrays have [MAX_THREADS] rows of a block each. *)
Definition wf_scratch (sc : scratch) : Prop :=
  length (thread_buffers sc) = MAX_THREADS /\
  length (thread_ivs sc) = MAX_THREADS /\
  Forall (fun r => length r = AES_BLOCKLEN) (thread_buffers sc) /\
  Forall (fun r => length r = AES_BLOCKLEN) (thread_ivs sc).

(** The team fits the scratch arrays of the variant. *)
Definition team_fits (s : strategy) (num_workers : nat) : Prop :=
  match s with
  | openmp_false_sharing => (num_workers <= MAX_THREADS)%nat
  | _ => True
  end.

Section CTRSpec.

Variable AES_keyExpSize : nat.
Variable AES_ECB_encrypt : list Z -> list Z -> list Z.

(** The keystream block of block number [c], and the keystream byte of
    buffer position [j]. *)
Definition keystream_block (rk iv : list Z) (c : nat) : list Z :=
  AES_ECB_encrypt rk (counter_add iv (Z.of_nat c)).

Definition keystream (rk iv : list Z) (j : nat) : Z :=
  nth (j mod AES_BLOCKLEN)%nat (keystream_block rk iv (j / AES_BLOCKLEN)%nat) 0.

(** The buffer after a call: the keystream XORed into the first [len]
    bytes. *)
Definition ctr_buffer (ctx : AES_ctx) (buf : list Z) (len : Z) : list Z :=
  xor_where (fun j => Z.of_nat j < len) (keystream (RoundKey ctx) (Iv ctx)) buf.

(** A context as [AES_init_ctx_iv] leaves it, a length that is a [size_t], and
    a buffer of at least that many bytes. *)
Definition wf_ctx (ctx : AES_ctx) : Prop :=
  is_block (Iv ctx) /\ length (RoundKey ctx) = AES_keyExpSize.

Definition wf_call (ctx : AES_ctx) (buf : list Z) (len : Z) : Prop :=
  wf_ctx ctx /\ is_size_t len /\ len <= Z.of_nat (length buf).

(** The statements after the parallel region. *)
Definition finish (RoundKey_used : list Z) (ctx : AES_ctx) (len : Z)
    (buf : list Z) : result (AES_ctx * list Z) :=
  let num_blocks := len / Z.of_nat AES_BLOCKLEN in
  let ctx := mkCtx (RoundKey ctx) (IncrementIvBy (Iv ctx) num_blocks) in
  if decide (len mod Z.of_nat AES_BLOCKLEN <> 0) then
    remainder AES_ECB_encrypt RoundKey_used ctx num_blocks len buf
  else Ok (ctx, buf).

(** The state of the serial loop after [k] bytes. *)
Definition serial_inv (ctx : AES_ctx) (buf : list Z) (k : nat)
    (st : list Z * list Z * Z * list Z) : Prop :=
  let '(iv, buffer, bi, cur) := st in
  cur = xor_where (fun j => j < k)%nat (keystream (RoundKey ctx) (Iv ctx)) buf /\
  match k with
  | O => iv = Iv ctx /\ bi = 16
  | Datatypes.S k' =>
      iv = counter_add (Iv ctx) (Z.of_nat (k' / 16) + 1) /\
      buffer = keystream_block (RoundKey ctx) (Iv ctx) (k' / 16) /\
      bi = Z.of_nat (k' mod 16) + 1
  end.

End CTRSpec.

(** *** Inputs to run the transforms on *)

(** A stand-in for the block cipher: any function on blocks will do. *)
Definition demo_cipher (rk blk : list Z) : list Z :=
  (fun x => Z.lxor ((7 * x + foldr Z.add 0 rk) mod 256) 90) <$> blk.

Definition demo_keyExpSize : nat := 176.

(** A key schedule of [demo_keyExpSize] bytes and the counter of
    benchmark.c, [f0 f1 .. ff]. *)
Definition demo_ctx : AES_ctx :=
  mkCtx ((fun i => (3 * i + 1) mod 256) <$> seqZ 0 176) (seqZ 240 16).

(** Forty bytes, of which a call of length 37 transforms two blocks and a
    tail of five bytes. *)
Definition demo_buf : list Z := (fun i => (11 * i) mod 256) <$> seqZ 0 40.

(** The scratch arrays at program start: zero-initialised statics. *)
Definition demo_scratch : scratch :=
  mkScratch (replicate MAX_THREADS (replicate AES_BLOCKLEN 0))
            (replicate MAX_THREADS (replicate AES_BLOCKLEN 0)).

(** Two threads, two blocks, thread 1 first. *)
Definition demo_trace : list event := [(1, 1); (0, 0)]%nat.

(** Closed, decidable side conditions are settled by evaluation. *)
Ltac by_computation :=
  unfold wf_call, wf_ctx, wf_scratch, is_block, is_size_t, is_byte, team_fits;
  compute_done.

(** *** The harness (benchmark.c) *)

(** [int]: 32 bits, two's complement. *)
Definition int_wrap (x : Z) : Z := (x + 2 ^ 31) mod 2 ^ 32 - 2 ^ 31.

(** test_correctness: [const size_t test_size = 1024 * 1024;] *)
Definition test_size : Z := size_t (1024 * 1024).

(** benchmark_size: [const size_t size = size_mb * 1024 * 1024;] *)
Definition bench_size (size_mb : Z) : Z := size_t (size_t (size_mb * 1024) * 1024).

(** benchmark_size: [const int iterations = (size_mb >= 64) ? 3 : 5;] *)
Definition bench_iterations (size_mb : Z) : nat :=
  if decide (64 <= size_mb) then 3%nat else 5%nat.

(** benchmark_size: the worker counts that a loop over [thread_counts]
    reaches.

    <<
      for (int t = 0; t < num_tests; ++t) {
        int num_threads = thread_counts[t];
        if (num_threads > max_threads)
          break;
        omp_set_num_threads(num_threads);
        ...
      }
    >> *)
Fixpoint tested_counts (max_threads : nat) (counts : list nat) : list nat :=
  match counts with
  | [] => []
  | num_threads :: counts' =>
      if decide (max_threads < num_threads)%nat then []
      else num_threads :: tested_counts max_threads counts'
  end.

(** test_correctness: one comparison loop; the count of mismatches is an
    [int]. The messages it prints are left out.

    <<
      int errors_par = 0;
      for (size_t i = 0; i < test_size; ++i)
        if (data_seq[i] != data_par[i]) {
          ...
          errors_par++;
        }
    >> *)
Definition count_errors (data_seq data_par : list Z) : result Z :=
  for_range (Z.to_nat test_size) 0
    (fun i errors =>
       let* a := load ArrayOutOfBounds data_seq i in
       let* b := load ArrayOutOfBounds data_par i in
       Ok (if decide (a <> b) then int_wrap (errors + 1) else errors))
    0.

(** What test_correctness reports: the value it returns and the three
    mismatch counts it prints. *)
Record test_report : Type := mkReport {
  exit_code : Z;
  errors_par : Z;
  errors_par_shared : Z;
  errors_par_fs : Z
}.

Section Harness.

Variable AES_keyExpSize : nat.
Variable AES_ECB_encrypt : list Z -> list Z -> list Z.

(** aes.c: [AES_init_ctx_iv(&ctx, key, iv)], the context for a key and an
    initial counter. *)
Variable AES_init_ctx_iv : list Z -> list Z -> AES_ctx.

(** aes.c: the sequential [AES_CTR_xcrypt_buffer], as test_correctness
    calls it. *)
Variable sequential_xcrypt : AES_ctx -> list Z -> Z -> result (AES_ctx * list Z).

(** benchmark_size: the timed loop of one worker count. The buffer is
    transformed in place, again on every pass; each pass starts from a
    context that is initialised anew. [trace_of i] is the trace of the
    team in pass [i]. The clock readings are left out.

    <<
      for (int i = 0; i < iterations; ++i) {
        struct AES_ctx ctx;
        AES_init_ctx_iv(&ctx, key, iv);
        ...
        AES_CTR_xcrypt_buffer_openmp(&ctx, data, size);
        ...
      }
    >> *)
Definition timed_loop (s : strategy) (iterations : nat)
    (trace_of : Z -> list event) (key iv : list Z) (size : Z)
    (st : scratch * list Z) : result (scratch * list Z) :=
  for_range iterations 0
    (fun i '(sc, data) =>
       let ctx := AES_init_ctx_iv key iv in
       let* (sc, _, data) :=
         ctrTransform AES_keyExpSize AES_ECB_encrypt s (trace_of i) sc ctx data size in
       Ok (sc, data))
    st.

(** benchmark_size: the loop over the worker counts of one variant, each
    with its timed loop. [trace_of num_threads i] is the trace of the team
    of [num_threads] threads in pass [i]. *)
Fixpoint bench_variant (s : strategy) (counts : list nat) (iterations : nat)
    (trace_of : nat -> Z -> list event) (key iv : list Z) (size : Z)
    (st : scratch * list Z) : result (scratch * list Z) :=
  match counts with
  | [] => Ok st
  | num_threads :: counts' =>
      let* st' := timed_loop s iterations (trace_of num_threads) key iv size st in
      bench_variant s counts' iterations trace_of key iv size st'
  end.

(** test_correctness: four copies of the same data, four contexts for the
    same key and counter, the sequential transform and three of the
    parallel ones, and the three comparisons with the sequential output.
    [data] is the buffer of [test_size] random bytes. *)
Definition test_correctness (tr_par tr_shared tr_fs : list event)
    (sc : scratch) (key iv data : list Z) : result (scratch * test_report) :=
  let ctx_seq := AES_init_ctx_iv key iv in
  let ctx_par := AES_init_ctx_iv key iv in
  let ctx_par_shared := AES_init_ctx_iv key iv in
  let ctx_par_fs := AES_init_ctx_iv key iv in
  let* (_, data_seq) := sequential_xcrypt ctx_seq data test_size in
  let* (_, data_par) :=
    AES_CTR_xcrypt_buffer_openmp AES_keyExpSize AES_ECB_encrypt
      tr_par ctx_par data test_size in
  let* (_, data_par_shared) :=
    AES_CTR_xcrypt_buffer_openmp_shared_ctx AES_ECB_encrypt
      tr_shared ctx_par_shared data test_size in
  let* (sc, _, data_par_fs) :=
    AES_CTR_xcrypt_buffer_openmp_false_sharing AES_keyExpSize AES_ECB_encrypt
      tr_fs sc ctx_par_fs data test_size in
  let* errors_par := count_errors data_seq data_par in
  let* errors_par_shared := count_errors data_seq data_par_shared in
  let* errors_par_fs := count_errors data_seq data_par_fs in
  let all_passed := 1 in
  let all_passed := if decide (errors_par = 0) then all_passed else 0 in
  let all_passed := if decide (errors_par_shared = 0) then all_passed else 0 in
  let all_passed := if decide (errors_par_fs = 0) then all_passed else 0 in
  Ok (sc, mkReport (if decide (all_passed <> 0) then 0 else 1)
                   errors_par errors_par_shared errors_par_fs).

End Harness.

(** benchmark.c: the key and the initial counter of the test and of the
    benchmark. *)
Definition benchmark_key : list Z :=
  [43; 126; 21; 22; 40; 174; 210; 166; 171; 247; 21; 136; 9; 207; 79; 60].

Definition benchmark_iv : list Z :=
  [240; 241; 242; 243; 244; 245; 246; 247; 248; 249; 250; 251; 252; 253; 254; 255].

(** *** Further notions for the facts *)

(** The last block that thread [t] runs in a trace. *)
Definition last_iteration (t : nat) (tr : list event) : option nat :=
  last (thread_iterations t tr).

(** A stand-in for [AES_init_ctx_iv]: some key schedule of
    [demo_keyExpSize] bytes, and the counter. *)
Definition demo_init (key iv : list Z) : AES_ctx :=
  mkCtx ((fun i => (i + foldr Z.add 0 key) mod 256) <$> seqZ 0 176) iv.

(** A buffer of [test_size] zero bytes. *)
Definition demo_test_data : list Z := replicate (Z.to_nat test_size) 0.

(** ** Part II: facts *)

(** *** Counter arithmetic *)

Section CounterFacts.

Lemma be_decode_snoc l b : be_decode (l ++ [b]) = be_decode l * 256 + b.
Proof. unfold be_decode. by rewrite foldl_app. Qed.

Lemma be_encode_length n v : length (be_encode n v) = n.
Proof.
  revert v; induction n as [|n IH]; intros v; simpl; [done|].
  rewrite length_app, IH. simpl. lia.
Qed.

Lemma be_encode_bytes n v : Forall is_byte (be_encode n v).
Proof.
  revert v; induction n as [|n IH]; intros v; simpl; [constructor|].
  apply Forall_app; split; [apply IH|].
  repeat constructor; unfold is_byte; apply Z.mod_pos_bound; lia.
Qed.

Lemma be_decode_bound l :
  Forall is_byte l -> 0 <= be_decode l < 256 ^ Z.of_nat (length l).
Proof.
  induction l as [|b l IH] using rev_ind; intros Hb.
  - simpl. unfold be_decode. simpl. lia.
  - apply Forall_app in Hb as [Hl Hb]. inversion Hb as [|? ? Hb' _]; subst.
    specialize (IH Hl). rewrite be_decode_snoc, length_app. simpl.
    replace (Z.of_nat (length l + 1)) with (Z.succ (Z.of_nat (length l))) by lia.
    rewrite Z.pow_succ_r by lia. unfold is_byte in Hb'. lia.
Qed.

Lemma be_encode_decode l :
  Forall is_byte l -> be_encode (length l) (be_decode l) = l.
Proof.
  induction l as [|b l IH] using rev_ind; intros Hb; [done|].
  apply Forall_app in Hb as [Hl Hb]. inversion Hb as [|? ? Hb' _]; subst.
  rewrite length_app, be_decode_snoc. simpl.
  replace (length l + 1)%nat with (S (length l)) by lia. simpl.
  unfold is_byte in Hb'.
  replace ((be_decode l * 256 + b) / 256) with (be_decode l)
    by (apply Z.div_unique with b; lia).
  replace ((be_decode l * 256 + b) mod 256) with b
    by (apply Z.mod_unique with (be_decode l); lia).
  by rewrite IH.
Qed.

Lemma be_decode_encode n v :
  be_decode (be_encode n v) = v mod 256 ^ Z.of_nat n.
Proof.
  revert v; induction n as [|n IH]; intros v.
  - simpl. unfold be_decode; simpl. by rewrite Z.mod_1_r.
  - simpl be_encode. rewrite be_decode_snoc, IH.
    replace (Z.of_nat (S n)) with (Z.succ (Z.of_nat n)) by lia.
    rewrite Z.pow_succ_r by lia.
    rewrite (Z.rem_mul_r v 256 (256 ^ Z.of_nat n)) by lia. lia.
Qed.

Lemma be_encode_mod n v :
  be_encode n (v mod 256 ^ Z.of_nat n) = be_encode n v.
Proof.
  revert v; induction n as [|n IH]; intros v; [done|].
  simpl be_encode.
  replace (Z.of_nat (S n)) with (Z.succ (Z.of_nat n)) by lia.
  rewrite Z.pow_succ_r by lia.
  assert (HP : 0 < 256 ^ Z.of_nat n) by (apply Z.pow_pos_nonneg; lia).
  rewrite (Z.rem_mul_r v 256 (256 ^ Z.of_nat n)) by lia.
  f_equal.
  - rewrite <- (IH (v / 256)). f_equal.
    rewrite Z.mul_comm, Z.div_add by lia.
    rewrite (Z.div_small (v mod 256)) by (apply Z.mod_pos_bound; lia). done.
  - f_equal. rewrite Z.mul_comm, Z.mod_add by lia. apply Z.mod_mod. lia.
Qed.

End CounterFacts.

Section IncrementIvByFacts.

Lemma size_t_small x : 0 <= x < 2 ^ SIZE_BITS -> size_t x = x.
Proof. intros H. unfold size_t. by apply Z.mod_small. Qed.

Lemma land_255 x : Z.land x 255 = x mod 256.
Proof. change 255 with (Z.ones 8). by rewrite Z.land_ones by lia. Qed.

Lemma shiftr_8 x : Z.shiftr x 8 = x / 256.
Proof. by rewrite Z.shiftr_div_pow2 by lia. Qed.

Lemma nth_lookup_byte (l : list Z) i b : l !! i = Some b -> nth i l 0 = b.
Proof. intros H. by apply nth_lookup_Some with (d := 0) in H. Qed.

(** One pass of the loop adds [carry] to the [n] leading bytes, read
    big-endian, and leaves the others. *)
Lemma IncrementIvBy_loop_spec n : forall Iv carry,
  (n <= length Iv)%nat -> Forall is_byte Iv -> is_size_t carry ->
  IncrementIvBy_loop n Iv carry =
    be_encode n (be_decode (take n Iv) + carry) ++ drop n Iv.
Proof.
  induction n as [|i IH]; intros Iv carry Hlen Hb Hc; [done|].
  destruct (lookup_lt_is_Some_2 Iv i ltac:(lia)) as [b Hi].
  assert (Hbyte : is_byte b)
    by (eapply Forall_lookup_1; eauto).
  unfold is_byte in Hbyte. unfold is_size_t, SIZE_BITS in Hc.
  cbn [IncrementIvBy_loop]. destruct (Z.gtb_spec carry 0) as [Hpos|Hzero].
  - rewrite (nth_lookup_byte _ _ _ Hi), !land_255.
    assert (Hcm : 0 <= carry mod 256 < 256) by (apply Z.mod_pos_bound; lia).
    rewrite (size_t_small (b + carry mod 256)) by (unfold SIZE_BITS; lia).
    rewrite !shiftr_8.
    assert (Hq : 0 <= carry / 256 < 2 ^ 56)
      by (split; [apply Z.div_pos; lia | apply Z.div_lt_upper_bound; lia]).
    assert (Hs : 0 <= (b + carry mod 256) / 256 < 2)
      by (split; [apply Z.div_pos; lia | apply Z.div_lt_upper_bound; lia]).
    rewrite size_t_small by (unfold SIZE_BITS; lia).
    rewrite IH; cycle 1.
    { rewrite length_insert. lia. }
    { apply Forall_insert; [done|]. unfold is_byte, u8.
      apply Z.mod_pos_bound; lia. }
    { unfold is_size_t, SIZE_BITS. lia. }
    rewrite take_insert_ge by lia.
    rewrite (take_S_r _ _ _ Hi), be_decode_snoc. cbn [be_encode].
    rewrite <- app_assoc. f_equal.
    + f_equal. generalize (be_decode (take i Iv)); intros D.
      Z.div_mod_to_equations. lia.
    + rewrite insert_take_drop by (by eapply lookup_lt_Some).
      rewrite drop_app_length' by (rewrite length_take; lia).
      cbn [app]. f_equal. unfold u8.
      generalize (be_decode (take i Iv)); intros D.
      Z.div_mod_to_equations. lia.
  - assert (carry = 0) by lia; subst carry. rewrite Z.add_0_r.
    rewrite <- (take_drop (S i) Iv) at 1. f_equal.
    assert (Hl : length (take (S i) Iv) = S i) by (rewrite length_take; lia).
    symmetry. etransitivity; [|apply be_encode_decode; by apply Forall_take].
    by rewrite Hl.
Qed.

Lemma IncrementIvBy_counter_add iv k :
  is_block iv -> is_size_t k -> IncrementIvBy iv k = counter_add iv k.
Proof.
  intros [Hlen Hb] Hk. unfold IncrementIvBy, counter_add.
  rewrite IncrementIvBy_loop_spec by (done || lia).
  rewrite take_ge, drop_ge, app_nil_r by lia.
  change (2 ^ 128) with (256 ^ Z.of_nat AES_BLOCKLEN).
  by rewrite be_encode_mod.
Qed.

Lemma counter_add_block iv k : is_block (counter_add iv k).
Proof. split; [apply be_encode_length | apply be_encode_bytes]. Qed.

Lemma counter_add_decode iv k :
  be_decode (counter_add iv k) = (be_decode iv + k) mod 2 ^ 128.
Proof.
  unfold counter_add. rewrite be_decode_encode.
  change (256 ^ Z.of_nat AES_BLOCKLEN) with (2 ^ 128).
  apply Z.mod_mod. lia.
Qed.

Lemma counter_add_add iv k1 k2 :
  counter_add (counter_add iv k1) k2 = counter_add iv (k1 + k2).
Proof.
  unfold counter_add at 1 3. rewrite counter_add_decode.
  f_equal. rewrite Z.add_mod_idemp_l by lia. f_equal. lia.
Qed.

Lemma counter_add_0 iv : is_block iv -> counter_add iv 0 = iv.
Proof.
  intros [Hlen Hb]. unfold counter_add. rewrite Z.add_0_r.
  change (2 ^ 128) with (256 ^ Z.of_nat AES_BLOCKLEN).
  rewrite be_encode_mod, <- Hlen. by apply be_encode_decode.
Qed.

Lemma IncrementIvBy_block iv k :
  is_block iv -> is_size_t k -> is_block (IncrementIvBy iv k).
Proof.
  intros. rewrite IncrementIvBy_counter_add by done. apply counter_add_block.
Qed.

Lemma IncrementIvBy_0 iv : IncrementIvBy iv 0 = iv.
Proof. reflexivity. Qed.

End IncrementIvByFacts.

(** *** The static schedule *)

Section PartitionFacts.

Local Open Scope nat_scope.

Variables num_blocks num_workers : nat.
Hypothesis workers_pos : 1 <= num_workers.

Lemma blocks_split :
  num_blocks = num_workers * (num_blocks / num_workers) + num_blocks mod num_workers /\
  num_blocks mod num_workers < num_workers.
Proof.
  split; [apply Nat.div_mod_eq | apply Nat.mod_upper_bound; lia].
Qed.

Lemma range_start_0 : range_start num_blocks num_workers 0 = 0.
Proof. unfold range_start. lia. Qed.

Lemma range_start_S t :
  range_start num_blocks num_workers (S t) = range_end num_blocks num_workers t.
Proof.
  unfold range_end, range_start, range_size.
  generalize (num_blocks / num_workers) (num_blocks mod num_workers). intros q r.
  case_decide; lia.
Qed.

Lemma range_start_last : range_start num_blocks num_workers num_workers = num_blocks.
Proof.
  unfold range_start. destruct blocks_split as [Hn Hr]. revert Hn Hr.
  generalize (num_blocks / num_workers) (num_blocks mod num_workers). intros q r.
  lia.
Qed.

Lemma range_start_mono t1 t2 :
  t1 <= t2 ->
  range_start num_blocks num_workers t1 <= range_start num_blocks num_workers t2.
Proof.
  induction 1 as [|t2 _ IH]; [done|].
  rewrite range_start_S. unfold range_end. lia.
Qed.

Lemma range_end_le_start t1 t2 :
  t1 < t2 ->
  range_end num_blocks num_workers t1 <= range_start num_blocks num_workers t2.
Proof. intros H. rewrite <- range_start_S. apply range_start_mono. lia. Qed.

Lemma range_end_bound t :
  t < num_workers -> range_end num_blocks num_workers t <= num_blocks.
Proof.
  intros H. pose proof (range_start_mono (S t) num_workers ltac:(lia)) as Hm.
  by rewrite range_start_S, range_start_last in Hm.
Qed.

Lemma elem_of_work_range b t :
  b ∈ work_range num_blocks num_workers t <->
  range_start num_blocks num_workers t <= b < range_end num_blocks num_workers t.
Proof. unfold work_range, range_end. by rewrite elem_of_seq. Qed.

Lemma concat_partition_prefix k :
  mjoin (work_range num_blocks num_workers <$> seq 0 k)
  = seq 0 (range_start num_blocks num_workers k).
Proof.
  induction k as [|k IH]; [by rewrite range_start_0|].
  rewrite seq_S, fmap_app, join_app, IH. cbn [fmap list_fmap mjoin list_join].
  rewrite app_nil_r, range_start_S. unfold range_end, work_range.
  by rewrite seq_app.
Qed.

Lemma concat_partition : mjoin (partition num_blocks num_workers) = seq 0 num_blocks.
Proof. unfold partition. by rewrite concat_partition_prefix, range_start_last. Qed.

(** The worker that owns block [b]. *)
Lemma work_range_cover b :
  b < num_blocks -> exists t, t < num_workers /\ b ∈ work_range num_blocks num_workers t.
Proof.
  intros Hb.
  assert (Hin : b ∈ mjoin (partition num_blocks num_workers))
    by (rewrite concat_partition, elem_of_seq; lia).
  apply list_elem_of_join in Hin as (rg & Hb' & Hrg).
  unfold partition in Hrg. apply list_elem_of_fmap in Hrg as (t & -> & Ht).
  apply elem_of_seq in Ht. exists t. split; [lia | done].
Qed.

Lemma work_range_disjoint b t1 t2 :
  b ∈ work_range num_blocks num_workers t1 ->
  b ∈ work_range num_blocks num_workers t2 -> t1 = t2.
Proof.
  rewrite !elem_of_work_range. intros H1 H2.
  destruct (Nat.lt_trichotomy t1 t2) as [Hlt|[Heq|Hgt]]; [|done|].
  - pose proof (range_end_le_start _ _ Hlt). lia.
  - pose proof (range_end_le_start _ _ Hgt). lia.
Qed.

Lemma range_size_balanced t1 t2 :
  range_size num_blocks num_workers t1 <= range_size num_blocks num_workers t2 + 1.
Proof. unfold range_size. repeat case_decide; lia. Qed.

Lemma work_range_excess t :
  num_blocks < num_workers -> num_blocks <= t ->
  work_range num_blocks num_workers t = [].
Proof.
  intros Hlt Ht. unfold work_range, range_size.
  rewrite Nat.div_small, Nat.mod_small by lia.
  case_decide; [lia | done].
Qed.

Lemma static_schedule_blocks :
  (static_schedule num_blocks num_workers).*2 = seq 0 num_blocks.
Proof.
  rewrite <- concat_partition. unfold static_schedule, partition.
  generalize (seq 0 num_workers). intros ts.
  induction ts as [|t ts IH]; [done|].
  cbn [mbind list_bind fmap list_fmap mjoin list_join]. rewrite fmap_app, IH. f_equal.
  rewrite <- list_fmap_compose. apply list_fmap_id.
Qed.

End PartitionFacts.

Section TraceFacts.

Local Open Scope nat_scope.

Lemma filter_ext_Forall {A} (P Q : A -> Prop)
    `{!forall x, Decision (P x), !forall x, Decision (Q x)} (l : list A) :
  Forall (fun x => P x <-> Q x) l -> filter P l = filter Q l.
Proof.
  induction 1 as [|x l Hx _ IH]; [done|].
  rewrite !filter_cons, IH. apply decide_ext. done.
Qed.

Lemma Permutation_of_eq {A} (l1 l2 : list A) : l1 = l2 -> l1 ≡ₚ l2.
Proof. by intros ->. Qed.

Lemma thread_filter_restrict W t (tr : list event) :
  t < W ->
  filter (fun e : event => e.1 = t) (filter (fun e : event => e.1 < W) tr)
  = filter (fun e : event => e.1 = t) tr.
Proof. intros Ht. apply list_filter_filter_l. intros e ->. done. Qed.

(** A trace is its threads' sub-traces, up to the interleaving. *)
Lemma trace_by_thread W : forall tr : list event,
  Forall (fun e : event => e.1 < W) tr ->
  tr ≡ₚ mjoin ((fun t => filter (fun e : event => e.1 = t) tr) <$> seq 0 W).
Proof.
  induction W as [|W IH]; intros tr Htr.
  - destruct tr as [|e tr]; [done|]. inversion Htr; subst. lia.
  - rewrite seq_S, fmap_app, join_app. cbn [fmap list_fmap mjoin list_join].
    rewrite app_nil_r.
    rewrite <- (filter_app_complement (fun e : event => e.1 < W) tr) at 1.
    apply Permutation_app.
    + etransitivity.
      { apply IH. apply Forall_forall. intros e He.
        by apply list_elem_of_filter in He as [? _]. }
      apply Permutation_of_eq. f_equal. apply list_fmap_ext.
      intros i t Ht. apply lookup_seq in Ht as [-> Hlt].
      by apply thread_filter_restrict.
    + apply Permutation_of_eq. apply filter_ext_Forall.
      eapply Forall_impl; [exact Htr|]. intros e He. cbn beta in *. lia.
Qed.

Lemma static_trace_blocks n W (tr : list event) :
  1 <= W -> static_trace n W tr -> tr.*2 ≡ₚ seq 0 n.
Proof.
  intros HW (_ & Hthreads & Hiter).
  rewrite (trace_by_thread W tr Hthreads) at 1.
  rewrite <- (concat_partition n W HW). unfold partition.
  apply Permutation_of_eq.
  rewrite Forall_forall in Hiter. clear Hthreads.
  assert (Hsub : forall t, t ∈ seq 0 W -> t ∈ seq 0 W) by done.
  revert Hsub. generalize (seq 0 W) at 1 3 4. intros ts Hsub.
  induction ts as [|t ts IH]; [done|].
  cbn [fmap list_fmap mjoin list_join]. rewrite fmap_app. f_equal.
  - apply (Hiter t). apply Hsub. left.
  - apply IH. intros t' Ht'. apply Hsub. by right.
Qed.

Lemma static_trace_NoDup n W (tr : list event) :
  1 <= W -> static_trace n W tr -> NoDup tr.*2.
Proof.
  intros HW Htr. rewrite (static_trace_blocks n W tr HW Htr). apply NoDup_seq.
Qed.

Lemma static_trace_elem n W (tr : list event) b :
  1 <= W -> static_trace n W tr -> b ∈ tr.*2 <-> b < n.
Proof.
  intros HW Htr. rewrite (static_trace_blocks n W tr HW Htr), elem_of_seq. lia.
Qed.

Lemma static_trace_thread n W (tr : list event) t b :
  static_trace n W tr -> (t, b) ∈ tr -> t < W /\ b ∈ work_range n W t.
Proof.
  intros (_ & Hthreads & Hiter) Hin.
  rewrite Forall_forall in Hthreads. pose proof (Hthreads _ Hin) as Ht.
  cbn in Ht. split; [done|].
  rewrite Forall_forall in Hiter.
  rewrite <- (Hiter t) by (apply elem_of_seq; lia).
  unfold thread_iterations. apply list_elem_of_fmap. exists (t, b).
  split; [done|]. by apply list_elem_of_filter.
Qed.

End TraceFacts.

(** *** Buffers, pointwise *)

Section XorWhereLookup.

Local Open Scope nat_scope.

Context (P : nat -> Prop) `{!forall j, Decision (P j)}.
Implicit Types (ks : nat -> Z) (buf : list Z).

Lemma lookup_xor_where ks buf j :
  xor_where P ks buf !! j
  = (fun b => if decide (P j) then xor8 b (ks j) else b) <$> buf !! j.
Proof. unfold xor_where. apply list_lookup_imap. Qed.

Lemma length_xor_where ks buf : length (xor_where P ks buf) = length buf.
Proof. unfold xor_where. apply length_imap. Qed.

End XorWhereLookup.

Section XorWhere.

Local Open Scope nat_scope.

Context (P Q : nat -> Prop) `{!forall j, Decision (P j), !forall j, Decision (Q j)}.
Implicit Types (ks : nat -> Z) (buf : list Z).

Lemma xor_where_ext ks ks' buf :
  (forall j, j < length buf -> (P j <-> Q j)) ->
  (forall j, j < length buf -> P j -> ks j = ks' j) ->
  xor_where P ks buf = xor_where Q ks' buf.
Proof.
  intros HPQ Hks. apply list_eq. intros j. rewrite !lookup_xor_where.
  destruct (buf !! j) as [b|] eqn:Hj; [|done]. cbn.
  apply lookup_lt_Some in Hj. pose proof (HPQ j Hj) as Hiff.
  destruct (decide (P j)) as [HP|HP], (decide (Q j)) as [HQ|HQ];
    [by rewrite Hks | tauto | tauto | done].
Qed.

Lemma xor_where_none ks buf :
  (forall j, j < length buf -> ~ P j) -> xor_where P ks buf = buf.
Proof.
  intros HP. apply list_eq. intros j. rewrite lookup_xor_where.
  destruct (buf !! j) as [b|] eqn:Hj; [|done]. cbn.
  apply lookup_lt_Some in Hj. case_decide; [by destruct (HP j Hj)|done].
Qed.

Lemma xor_where_compose ks buf :
  (forall j, P j -> Q j -> False) ->
  xor_where P ks (xor_where Q ks buf) = xor_where (fun j => P j \/ Q j) ks buf.
Proof.
  intros Hdisj. apply list_eq. intros j. rewrite !lookup_xor_where.
  destruct (buf !! j) as [b|]; [|done]. cbn.
  repeat case_decide; try done; try tauto.
  by destruct (Hdisj j).
Qed.

Lemma xor8_involutive b k : is_byte b -> xor8 (xor8 b k) k = b.
Proof.
  unfold is_byte, xor8, u8. intros Hb.
  change 256%Z with (2 ^ 8)%Z. rewrite <- !Z.land_ones by lia.
  rewrite <- (Z.mod_small b (2 ^ 8)) at 2 by done.
  rewrite <- Z.land_ones by lia.
  apply Z.bits_inj'. intros n Hn.
  rewrite !Z.land_spec, !Z.lxor_spec, !Z.land_spec, !Z.lxor_spec.
  destruct (Z.testbit b n), (Z.testbit k n), (Z.testbit (Z.ones 8) n); done.
Qed.

Lemma xor_where_involutive ks buf :
  (forall j b, P j -> buf !! j = Some b -> is_byte b) ->
  xor_where P ks (xor_where P ks buf) = buf.
Proof.
  intros Hb. apply list_eq. intros j. rewrite !lookup_xor_where.
  destruct (buf !! j) as [b|] eqn:Hj; [|done]. cbn.
  case_decide; [|done]. f_equal. apply xor8_involutive. by eapply Hb.
Qed.

End XorWhere.

(** *** Loops and memory *)

Section Loops.

Local Open Scope nat_scope.

(** Loop invariants for [for_range]: [Inv k] holds after [k] iterations. *)
Lemma for_range_inv {S : Type} (body : Z -> S -> result S) count :
  forall (Inv : nat -> S -> Prop) (lo : Z) (s : S),
  Inv 0 s ->
  (forall k s, k < count -> Inv k s ->
     exists s', body (lo + Z.of_nat k)%Z s = Ok s' /\ Inv (Datatypes.S k) s') ->
  exists s', for_range count lo body s = Ok s' /\ Inv count s'.
Proof.
  induction count as [|c IH]; intros Inv lo s H0 Hstep.
  - exists s. done.
  - destruct (Hstep 0 s ltac:(lia) H0) as (s1 & Hs1 & Hinv1).
    rewrite Z.add_0_r in Hs1. cbn [for_range]. rewrite Hs1. cbn [bind].
    apply (IH (fun k => Inv (Datatypes.S k)) (lo + 1)%Z s1 Hinv1).
    intros k s' Hk Hinv.
    destruct (Hstep (Datatypes.S k) s' ltac:(lia) Hinv) as (s'' & Hs'' & Hinv'').
    exists s''. split; [|done]. rewrite <- Hs''. f_equal. lia.
Qed.

(** [buf[j] ^= k] on a buffer that has not yet been touched at [j]. *)
Lemma xor_store_extend (P : nat -> Prop) `{!forall j, Decision (P j)}
    (ks : nat -> Z) (buf : list Z) (j : nat) (i k : Z) :
  i = Z.of_nat j -> j < length buf -> ~ P j -> k = ks j ->
  xor_store (xor_where P ks buf) i k
  = Ok (xor_where (fun j' => P j' \/ j' = j) ks buf).
Proof.
  intros -> Hj HP ->. unfold xor_store, load, store.
  rewrite Nat2Z.id, lookup_xor_where.
  destruct (lookup_lt_is_Some_2 buf j Hj) as [b Hb]. rewrite Hb. cbn.
  rewrite (decide_False (P := P j)) by done.
  rewrite decide_True by (by rewrite length_xor_where).
  f_equal. apply list_eq. intros j'. rewrite lookup_xor_where.
  destruct (decide (j' = j)) as [->|Hne].
  - rewrite list_lookup_insert_eq by (by rewrite length_xor_where).
    rewrite Hb. cbn. rewrite decide_True by tauto. done.
  - rewrite list_lookup_insert_ne by done. rewrite lookup_xor_where.
    destruct (buf !! j'); [|done]. cbn.
    repeat case_decide; try done; tauto.
Qed.

Lemma memcpy_all (dst src : list Z) n :
  length src = n -> length dst = n -> memcpy dst src n = Ok src.
Proof.
  intros Hs Hd. unfold memcpy. rewrite decide_True by lia.
  by rewrite take_ge, drop_ge, app_nil_r by lia.
Qed.

Lemma local_array_length n : length (local_array n) = n.
Proof. apply length_replicate. Qed.

Lemma IncrementIvBy_loop_length n : forall Iv carry,
  length (IncrementIvBy_loop n Iv carry) = length Iv.
Proof.
  induction n as [|n IH]; intros Iv carry; [done|].
  cbn [IncrementIvBy_loop]. case_match; [|done].
  by rewrite IH, length_insert.
Qed.

Lemma IncrementIvBy_length Iv k : length (IncrementIvBy Iv k) = length Iv.
Proof. apply IncrementIvBy_loop_length. Qed.

End Loops.

(** *** Traces of a team *)

Section TeamTraceFacts.

Local Open Scope nat_scope.

Lemma team_trace_NoDup W n (tr : list event) : team_trace W n tr -> NoDup tr.*2.
Proof. by intros (_ & Hnd & _). Qed.

Lemma team_trace_elem W n (tr : list event) b :
  team_trace W n tr -> b ∈ tr.*2 <-> b < n.
Proof.
  intros (Hev & _ & Hall). split.
  - intros Hb. apply list_elem_of_fmap in Hb as (e & -> & He).
    rewrite Forall_forall in Hev. by destruct (Hev e He).
  - intros Hb. rewrite Forall_forall in Hall. apply Hall, elem_of_seq. lia.
Qed.

Lemma team_trace_threads W n (tr : list event) :
  team_trace W n tr -> Forall (fun e : event => e.1 < W) tr.
Proof.
  intros (Hev & _). eapply Forall_impl; [exact Hev|]. by intros e [? _].
Qed.

Lemma team_trace_blocks W n (tr : list event) :
  team_trace W n tr -> tr.*2 ≡ₚ seq 0 n.
Proof.
  intros Htr. apply NoDup_Permutation.
  - by eapply team_trace_NoDup.
  - apply NoDup_seq.
  - intros b. rewrite (team_trace_elem W n tr b Htr), elem_of_seq. lia.
Qed.

(** The static schedule is one way to run the loop. *)
Lemma static_trace_team_trace n W (tr : list event) :
  1 <= W -> static_trace n W tr -> team_trace W n tr.
Proof.
  intros HW Htr. pose proof Htr as (_ & Hthreads & _). repeat split.
  - apply Forall_forall. intros e He. rewrite Forall_forall in Hthreads.
    split; [by apply Hthreads|].
    apply (static_trace_elem n W tr (e.2) HW Htr).
    apply list_elem_of_fmap. by exists e.
  - by eapply static_trace_NoDup.
  - apply Forall_forall. intros b Hb. apply elem_of_seq in Hb.
    apply (static_trace_elem n W tr b HW Htr). lia.
Qed.

Lemma thread_iterations_app t (tr1 tr2 : list event) :
  thread_iterations t (tr1 ++ tr2) = thread_iterations t tr1 ++ thread_iterations t tr2.
Proof. unfold thread_iterations. by rewrite filter_app, fmap_app. Qed.

Lemma thread_iterations_same t (bs : list nat) :
  thread_iterations t (pair t <$> bs) = bs.
Proof.
  unfold thread_iterations. induction bs as [|b bs IH]; [done|].
  cbn [fmap list_fmap]. rewrite filter_cons_True by done.
  cbn [fmap list_fmap snd]. f_equal. exact IH.
Qed.

Lemma thread_iterations_other t t' (bs : list nat) :
  t <> t' -> thread_iterations t (pair t' <$> bs) = [].
Proof.
  intros Hne. unfold thread_iterations. induction bs as [|b bs IH]; [done|].
  cbn [fmap list_fmap]. rewrite filter_cons_False by (cbn; congruence). exact IH.
Qed.

Lemma thread_iterations_schedule n W t (ts : list nat) :
  NoDup ts ->
  thread_iterations t (t' ← ts; pair t' <$> work_range n W t')
  = if decide (t ∈ ts) then work_range n W t else [].
Proof.
  induction 1 as [|t0 ts Hnin Hnd IH]; [done|].
  cbn [mbind list_bind]. rewrite thread_iterations_app.
  change (mjoin _) with (t' ← ts; pair t' <$> work_range n W t') in *.
  rewrite IH. destruct (decide (t = t0)) as [->|Hne].
  - rewrite thread_iterations_same.
    rewrite (decide_True (P := t0 ∈ t0 :: ts)) by left.
    rewrite (decide_False (P := t0 ∈ ts)) by done. apply app_nil_r.
  - rewrite thread_iterations_other by done. cbn [app].
    destruct (decide (t ∈ ts)) as [Hin|Hnin'].
    + rewrite (decide_True (P := t ∈ t0 :: ts)) by (by right). done.
    + rewrite (decide_False (P := t ∈ t0 :: ts)); [done|].
      rewrite elem_of_cons. tauto.
Qed.

Lemma static_schedule_static_trace n W :
  1 <= W -> static_trace n W (static_schedule n W).
Proof.
  intros HW. split; [done|]. split.
  - unfold static_schedule. apply Forall_forall. intros e He.
    apply list_elem_of_bind in He as (t & He & Ht).
    apply list_elem_of_fmap in He as (b & -> & _).
    apply elem_of_seq in Ht. cbn. lia.
  - apply Forall_forall. intros t Ht. unfold static_schedule.
    rewrite thread_iterations_schedule by apply NoDup_seq.
    by rewrite decide_True.
Qed.

(** Every team of at least one thread can run the loop. *)
Lemma static_schedule_team_trace n W :
  1 <= W -> team_trace W n (static_schedule n W).
Proof.
  intros HW. apply static_trace_team_trace; [done|].
  by apply static_schedule_static_trace.
Qed.

End TeamTraceFacts.

(** *** The transforms *)

Section CTRFacts.

Variable AES_keyExpSize : nat.
Variable AES_ECB_encrypt : list Z -> list Z -> list Z.

(** The cipher works in place on a block. *)
Hypothesis ECB_length : forall rk blk,
  length blk = AES_BLOCKLEN -> length (AES_ECB_encrypt rk blk) = AES_BLOCKLEN.

Lemma keystream_block_length rk iv c : length (keystream_block AES_ECB_encrypt rk iv c) = AES_BLOCKLEN.
Proof. apply ECB_length, counter_add_block. Qed.

Lemma xor_block_spec buffer (start : nat) buf :
  length buffer = AES_BLOCKLEN ->
  (start + 16 <= length buf)%nat ->
  Z.of_nat start + 16 < 2 ^ 64 ->
  xor_block buffer (Z.of_nat start) buf
  = Ok (xor_where (fun j => start <= j < start + 16)%nat
                  (fun j => nth (j - start) buffer 0) buf).
Proof.
  intros Hbuffer Hlen Hmax. unfold xor_block.
  set (ks := fun j : nat => nth (j - start) buffer 0).
  edestruct (for_range_inv
    (fun i buf => let* k := load ArrayOutOfBounds buffer i in
                  xor_store buf (size_t (Z.of_nat start + i)) k)
    AES_BLOCKLEN
    (fun k cur => cur = xor_where (fun j => start <= j < start + k)%nat ks buf)
    0 buf) as (buf' & Hrun & ->).
  - symmetry. apply xor_where_none. lia.
  - intros k cur Hk ->. unfold AES_BLOCKLEN in *.
    destruct (lookup_lt_is_Some_2 buffer k ltac:(lia)) as [kb Hkb].
    unfold load. rewrite Z.add_0_l, Nat2Z.id, Hkb. cbn [bind].
    rewrite size_t_small by (unfold SIZE_BITS; lia).
    eexists. split; [|reflexivity].
    rewrite (xor_store_extend _ ks buf (start + k)%nat); [|lia|lia|lia|].
    + f_equal. apply xor_where_ext; [lia | done].
    + unfold ks. replace (start + k - start)%nat with k by lia.
      symmetry. by apply nth_lookup_byte.
  - exact Hrun.
Qed.

Lemma block_body_spec rk iv (b : nat) buf :
  is_block iv ->
  (16 * b + 16 <= length buf)%nat ->
  16 * Z.of_nat b + 16 < 2 ^ 64 ->
  block_body AES_ECB_encrypt rk iv (Z.of_nat b) buf
  = Ok (xor_where (fun j => j / AES_BLOCKLEN = b)%nat (keystream AES_ECB_encrypt rk iv) buf).
Proof.
  intros Hiv Hlen Hmax. unfold block_body.
  pose proof Hiv as [Hivlen _].
  rewrite memcpy_all by (done || apply local_array_length). cbn [bind].
  rewrite IncrementIvBy_counter_add
    by (done || unfold is_size_t, SIZE_BITS; lia).
  rewrite memcpy_all
    by (apply counter_add_block || apply local_array_length). cbn [bind].
  rewrite size_t_small by (unfold SIZE_BITS, AES_BLOCKLEN; lia).
  replace (Z.of_nat b * Z.of_nat AES_BLOCKLEN) with (Z.of_nat (16 * b))
    by (unfold AES_BLOCKLEN; lia).
  rewrite xor_block_spec; [|apply ECB_length, counter_add_block|lia|lia].
  f_equal. unfold AES_BLOCKLEN.
  assert (Hdiv : forall j, (16 * b <= j < 16 * b + 16)%nat <-> (j / 16 = b)%nat).
  { intros j. pose proof (Nat.div_mod_eq j 16).
    pose proof (Nat.mod_upper_bound j 16 ltac:(lia)). lia. }
  apply xor_where_ext.
  - intros j _. apply Hdiv.
  - intros j _ Hj. unfold keystream, keystream_block, AES_BLOCKLEN.
    apply Hdiv in Hj as Hq. rewrite Hq. f_equal.
    pose proof (Nat.div_mod_eq j 16). lia.
Qed.

Lemma omp_for_blocks rk iv (tr : list event) : forall buf,
  is_block iv ->
  NoDup tr.*2 ->
  (forall b, b ∈ tr.*2 ->
     (16 * b + 16 <= length buf)%nat /\ 16 * Z.of_nat b + 16 < 2 ^ 64) ->
  omp_for tr (fun _ block_idx buf => block_body AES_ECB_encrypt rk iv block_idx buf) buf
  = Ok (xor_where (fun j => (j / AES_BLOCKLEN)%nat ∈ tr.*2) (keystream AES_ECB_encrypt rk iv) buf).
Proof.
  induction tr as [|[t b] tr IH]; intros buf Hiv Hnd Hbound.
  - cbn. f_equal. symmetry. apply xor_where_none. intros j _. apply not_elem_of_nil.
  - cbn [omp_for fmap list_fmap snd] in *.
    apply NoDup_cons in Hnd as [Hb Hnd].
    destruct (Hbound b ltac:(left)) as [Hlen Hmax].
    rewrite block_body_spec by done. cbn [bind].
    rewrite IH; [|done|done|]; cycle 1.
    { intros b' Hb'. rewrite length_xor_where. apply Hbound. by right. }
    f_equal. rewrite xor_where_compose by (intros j Hin Heq; by rewrite Heq in Hin).
    apply xor_where_ext; [|done].
    intros j _. rewrite elem_of_cons. change (list_fmap _ _ snd tr) with (tr.*2).
    tauto.
Qed.

Lemma remainder_spec rk ctx (n r : nat) buf :
  is_block (Iv ctx) ->
  (r <= 16)%nat ->
  (16 * n + r <= length buf)%nat ->
  Z.of_nat (16 * n + r) < 2 ^ 64 ->
  remainder AES_ECB_encrypt rk ctx (Z.of_nat n) (Z.of_nat (16 * n + r)) buf
  = Ok (mkCtx (RoundKey ctx) (counter_add (Iv ctx) 1),
        xor_where (fun j => 16 * n <= j < 16 * n + r)%nat
                  (fun j => nth (j - 16 * n) (AES_ECB_encrypt rk (Iv ctx)) 0) buf).
Proof.
  intros Hiv Hr Hlen Hmax. unfold remainder. pose proof Hiv as [Hivlen _].
  rewrite memcpy_all by (done || apply local_array_length). cbn [bind].
  rewrite size_t_small by (unfold SIZE_BITS, AES_BLOCKLEN; lia).
  replace (Z.to_nat (Z.of_nat (16 * n + r) - Z.of_nat n * Z.of_nat AES_BLOCKLEN))
    with r by (unfold AES_BLOCKLEN; lia).
  set (buffer := AES_ECB_encrypt rk (Iv ctx)).
  assert (Hbuffer : length buffer = 16%nat) by (by apply ECB_length).
  set (ks := fun j : nat => nth (j - 16 * n) buffer 0).
  edestruct (for_range_inv
    (fun i '(buf, bi) =>
       let* k := load ArrayOutOfBounds buffer bi in
       let* buf := xor_store buf i k in
       Ok (buf, u8 (bi + 1)))
    r
    (fun k '(cur, bi) =>
       bi = Z.of_nat k /\
       cur = xor_where (fun j => 16 * n <= j < 16 * n + k)%nat ks buf)
    (Z.of_nat n * Z.of_nat AES_BLOCKLEN) (buf, 0)) as ([buf' bi'] & Hrun & _ & ->).
  - split; [done|]. symmetry. apply xor_where_none. lia.
  - intros k [cur bi] Hk [-> ->]. unfold AES_BLOCKLEN.
    destruct (lookup_lt_is_Some_2 buffer k ltac:(lia)) as [kb Hkb].
    unfold load. rewrite Nat2Z.id, Hkb. cbn [bind].
    rewrite (xor_store_extend _ ks buf (16 * n + k)%nat); [|lia|lia|lia|].
    + cbn [bind]. eexists (_, _). split; [reflexivity|]. split.
      * unfold u8. rewrite Z.mod_small by lia. lia.
      * apply xor_where_ext; [lia | done].
    + unfold ks. replace (16 * n + k - 16 * n)%nat with k by lia.
      symmetry. by apply nth_lookup_byte.
  - rewrite Hrun. cbn [bind]. by rewrite IncrementIvBy_counter_add
      by (done || unfold is_size_t, SIZE_BITS; lia).
Qed.

Lemma length_split len :
  0 <= len ->
  exists n r : nat, len = Z.of_nat (16 * n + r) /\ (r < 16)%nat /\
    len / 16 = Z.of_nat n /\ len mod 16 = Z.of_nat r.
Proof.
  intros Hlen. exists (Z.to_nat (len / 16)), (Z.to_nat (len mod 16)).
  pose proof (Z.div_mod len 16 ltac:(lia)).
  pose proof (Z.mod_pos_bound len 16 ltac:(lia)).
  assert (0 <= len / 16) by (apply Z.div_pos; lia). lia.
Qed.

Lemma blocks_done_spec ctx buf len W tr :
  wf_call AES_keyExpSize ctx buf len -> team_trace W (num_blocks_of len) tr ->
  omp_for tr (fun _ block_idx buf =>
                block_body AES_ECB_encrypt (RoundKey ctx) (Iv ctx) block_idx buf) buf
  = Ok (ctr_buffer AES_ECB_encrypt ctx buf (16 * (len / 16))).
Proof.
  intros ((Hiv & Hrk) & Hsz & Hbuf) Htr.
  unfold is_size_t, SIZE_BITS in Hsz. unfold num_blocks_of, AES_BLOCKLEN in Htr.
  change (Z.of_nat 16) with 16 in Htr.
  destruct (length_split len ltac:(lia)) as (n & r & Hlen & Hr & Hq & Hm).
  rewrite Hq, Nat2Z.id in Htr.
  assert (Helem : forall b, b ∈ tr.*2 <-> (b < n)%nat)
    by (intros b; by eapply team_trace_elem).
  rewrite omp_for_blocks; [|done|by eapply team_trace_NoDup|].
  - f_equal. unfold ctr_buffer. apply xor_where_ext; [|done].
    intros j _. rewrite Helem, Hq. unfold AES_BLOCKLEN.
    pose proof (Nat.div_mod_eq j 16).
    pose proof (Nat.mod_upper_bound j 16 ltac:(lia)). lia.
  - intros b Hb. apply Helem in Hb. lia.
Qed.

Lemma finish_cases ctx buf len :
  wf_call AES_keyExpSize ctx buf len ->
  let num_blocks := len / Z.of_nat AES_BLOCKLEN in
  let ctx1 := mkCtx (RoundKey ctx) (IncrementIvBy (Iv ctx) num_blocks) in
  let buf1 := ctr_buffer AES_ECB_encrypt ctx buf (16 * (len / 16)) in
  (len mod Z.of_nat AES_BLOCKLEN <> 0 ->
     remainder AES_ECB_encrypt (RoundKey ctx) ctx1 num_blocks len buf1
     = Ok (ctr_context ctx len, ctr_buffer AES_ECB_encrypt ctx buf len)) /\
  (len mod Z.of_nat AES_BLOCKLEN = 0 ->
     ctx1 = ctr_context ctx len /\ buf1 = ctr_buffer AES_ECB_encrypt ctx buf len).
Proof.
  intros ((Hiv & Hrk) & Hsz & Hbuf).
  unfold is_size_t, SIZE_BITS in Hsz. unfold AES_BLOCKLEN.
  destruct (length_split len ltac:(lia)) as (n & r & Hlen & Hr & Hq & Hm).
  change (Z.of_nat 16) with 16. cbv zeta. rewrite Hq, Hm.
  rewrite IncrementIvBy_counter_add by (done || unfold is_size_t, SIZE_BITS; lia).
  unfold ctr_context, ctr_buffer. split; intros Hrem.
  - rewrite Hlen at 1.
    rewrite remainder_spec;
      [|apply counter_add_block|lia|rewrite length_xor_where; lia|lia].
    cbn [RoundKey Iv]. f_equal. f_equal.
    + rewrite counter_add_add. do 2 f_equal.
      apply Z.div_unique with (Z.of_nat r - 1); lia.
    + rewrite (xor_where_ext _ (fun j => 16 * n <= j < 16 * n + r)%nat _
                 (keystream AES_ECB_encrypt (RoundKey ctx) (Iv ctx))); [|done|].
      * rewrite xor_where_compose by lia.
        apply xor_where_ext; [lia|done].
      * intros j _ Hj. unfold keystream, keystream_block, AES_BLOCKLEN.
        assert (Hjq : (j / 16)%nat = n)
          by (symmetry; apply Nat.div_unique with (j - 16 * n)%nat; lia).
        assert (Hjm : (j mod 16)%nat = (j - 16 * n)%nat)
          by (symmetry; apply Nat.mod_unique with n; lia).
        by rewrite Hjq, Hjm.
  - split.
    + do 2 f_equal. apply Z.div_unique with 15; lia.
    + apply xor_where_ext; [lia|done].
Qed.

Lemma finish_spec ctx buf len :
  wf_call AES_keyExpSize ctx buf len ->
  finish AES_ECB_encrypt (RoundKey ctx) ctx len (ctr_buffer AES_ECB_encrypt ctx buf (16 * (len / 16)))
  = Ok (ctr_context ctx len, ctr_buffer AES_ECB_encrypt ctx buf len).
Proof.
  intros Hcall. destruct (finish_cases ctx buf len Hcall) as [Hrem Hnone].
  unfold finish. case_decide as Hm.
  - exact (Hrem Hm).
  - destruct (Hnone Hm) as [Hc Hb]. cbv zeta in Hc, Hb. rewrite Hc, Hb. reflexivity.
Qed.

Lemma copy_RoundKey_spec ctx :
  length (RoundKey ctx) = AES_keyExpSize ->
  copy_RoundKey AES_keyExpSize ctx = Ok (RoundKey ctx).
Proof.
  intros Hrk. unfold copy_RoundKey.
  apply memcpy_all; [done | apply local_array_length].
Qed.

Lemma openmp_spec W tr ctx buf len :
  wf_call AES_keyExpSize ctx buf len -> team_trace W (num_blocks_of len) tr ->
  AES_CTR_xcrypt_buffer_openmp AES_keyExpSize AES_ECB_encrypt tr ctx buf len
  = Ok (ctr_context ctx len, ctr_buffer AES_ECB_encrypt ctx buf len).
Proof.
  intros Hcall Hteam. pose proof Hcall as (Hctx & _). pose proof Hctx as [[Hivlen _] Hrk].
  unfold AES_CTR_xcrypt_buffer_openmp.
  rewrite memcpy_all by (done || apply local_array_length). cbn [bind].
  rewrite copy_RoundKey_spec by done. cbn [bind].
  rewrite (blocks_done_spec ctx buf len W tr) by done. cbn [bind].
  rewrite memcpy_all by done. cbn [bind].
  rewrite copy_RoundKey_spec by done.
  cbn [bind RoundKey]. by apply finish_spec.
Qed.

Lemma nowait_same :
  AES_CTR_xcrypt_buffer_openmp_nowait AES_keyExpSize AES_ECB_encrypt
  = AES_CTR_xcrypt_buffer_openmp AES_keyExpSize AES_ECB_encrypt.
Proof. reflexivity. Qed.

Lemma shared_ctx_spec W tr ctx buf len :
  wf_call AES_keyExpSize ctx buf len -> team_trace W (num_blocks_of len) tr ->
  AES_CTR_xcrypt_buffer_openmp_shared_ctx AES_ECB_encrypt tr ctx buf len
  = Ok (ctr_context ctx len, ctr_buffer AES_ECB_encrypt ctx buf len).
Proof.
  intros Hcall Hteam. pose proof Hcall as (Hctx & _). pose proof Hctx as [[Hivlen _] Hrk].
  unfold AES_CTR_xcrypt_buffer_openmp_shared_ctx.
  rewrite memcpy_all by (done || apply local_array_length). cbn [bind].
  rewrite (blocks_done_spec ctx buf len W tr) by done. cbn [bind].
  rewrite memcpy_all by done. cbn [bind RoundKey]. by apply finish_spec.
Qed.

Lemma row_spec (a : list (list Z)) t :
  (t < length a)%nat -> Forall (fun r => length r = AES_BLOCKLEN) a ->
  exists r, row a t = Ok r /\ length r = AES_BLOCKLEN.
Proof.
  intros Ht Ha. destruct (lookup_lt_is_Some_2 a t Ht) as [r Hr].
  exists r. unfold row. rewrite Hr. split; [done|].
  exact (Forall_lookup_1 _ a t r Ha Hr).
Qed.

Lemma block_body_unfold rk iv idx buf :
  length iv = AES_BLOCKLEN ->
  block_body AES_ECB_encrypt rk iv idx buf
  = xor_block (AES_ECB_encrypt rk (IncrementIvBy iv idx))
              (size_t (idx * Z.of_nat AES_BLOCKLEN)) buf.
Proof.
  intros Hiv. unfold block_body.
  rewrite memcpy_all by (done || apply local_array_length). cbn [bind].
  rewrite memcpy_all
    by (apply local_array_length || by rewrite IncrementIvBy_length).
  reflexivity.
Qed.

Lemma block_body_false_sharing_unfold rk iv t idx sc buf :
  wf_scratch sc -> (t < MAX_THREADS)%nat -> length iv = AES_BLOCKLEN ->
  block_body_false_sharing AES_ECB_encrypt rk iv t idx (sc, buf)
  = let* buf := block_body AES_ECB_encrypt rk iv idx buf in
    Ok (mkScratch
          (<[ t := AES_ECB_encrypt rk (IncrementIvBy iv idx) ]> (thread_buffers sc))
          (<[ t := IncrementIvBy iv idx ]> (thread_ivs sc)),
        buf).
Proof.
  intros (Hb & Hi & Hbs & His) Ht Hiv.
  rewrite block_body_unfold by done. unfold block_body_false_sharing.
  destruct (row_spec (thread_ivs sc) t ltac:(lia) His) as (my_iv & -> & Hmy_iv).
  destruct (row_spec (thread_buffers sc) t ltac:(lia) Hbs) as (my_buffer & -> & Hmy_buffer).
  cbn [bind].
  rewrite memcpy_all by done. cbn [bind].
  rewrite memcpy_all by (done || by rewrite IncrementIvBy_length).
  reflexivity.
Qed.

Lemma block_body_false_sharing_spec rk iv t idx sc buf buf1 :
  wf_scratch sc -> (t < MAX_THREADS)%nat -> length iv = AES_BLOCKLEN ->
  block_body AES_ECB_encrypt rk iv idx buf = Ok buf1 ->
  exists sc1,
    block_body_false_sharing AES_ECB_encrypt rk iv t idx (sc, buf) = Ok (sc1, buf1)
    /\ wf_scratch sc1.
Proof.
  intros Hsc Ht Hiv Hrun.
  rewrite block_body_false_sharing_unfold, Hrun by done. cbn [bind].
  eexists. split; [reflexivity|].
  destruct Hsc as (Hb & Hi & Hbs & His).
  unfold wf_scratch. cbn [thread_buffers thread_ivs].
  rewrite !length_insert. repeat split; try done.
  - apply Forall_insert; [done|]. apply ECB_length. by rewrite IncrementIvBy_length.
  - apply Forall_insert; [done|]. by rewrite IncrementIvBy_length.
Qed.

Lemma omp_for_false_sharing_spec rk iv (tr : list event) : forall sc buf buf',
  wf_scratch sc -> Forall (fun e : event => (e.1 < MAX_THREADS)%nat) tr ->
  length iv = AES_BLOCKLEN ->
  omp_for tr (fun _ block_idx buf => block_body AES_ECB_encrypt rk iv block_idx buf) buf
    = Ok buf' ->
  exists sc',
    omp_for tr (block_body_false_sharing AES_ECB_encrypt rk iv) (sc, buf) = Ok (sc', buf')
    /\ wf_scratch sc'.
Proof.
  induction tr as [|[t b] tr IH]; intros sc buf buf' Hsc Htr Hiv Hrun.
  - cbn in *. inversion Hrun; subst. by exists sc.
  - cbn [omp_for] in *. apply Forall_cons in Htr as [Ht Htr]. cbn in Ht.
    destruct (block_body AES_ECB_encrypt rk iv (Z.of_nat b) buf) as [buf1|f] eqn:Hb;
      [|done].
    cbn [bind] in Hrun.
    destruct (block_body_false_sharing_spec rk iv t (Z.of_nat b) sc buf buf1)
      as (sc1 & -> & Hsc1); [done..|].
    cbn [bind]. by apply IH.
Qed.

Lemma false_sharing_spec W tr sc ctx buf len :
  wf_call AES_keyExpSize ctx buf len -> team_trace W (num_blocks_of len) tr ->
  wf_scratch sc -> (W <= MAX_THREADS)%nat ->
  exists sc',
    AES_CTR_xcrypt_buffer_openmp_false_sharing AES_keyExpSize AES_ECB_encrypt
      tr sc ctx buf len
    = Ok (sc', ctr_context ctx len, ctr_buffer AES_ECB_encrypt ctx buf len)
    /\ wf_scratch sc'.
Proof.
  intros Hcall Hteam Hsc HW.
  pose proof Hcall as (Hctx & _). pose proof Hctx as [[Hivlen _] Hrk].
  unfold AES_CTR_xcrypt_buffer_openmp_false_sharing.
  rewrite memcpy_all by (done || apply local_array_length). cbn [bind].
  rewrite copy_RoundKey_spec by done. cbn [bind].
  destruct (omp_for_false_sharing_spec (RoundKey ctx) (Iv ctx) tr sc buf
              (ctr_buffer AES_ECB_encrypt ctx buf (16 * (len / 16)))) as (sc' & -> & Hsc');
    [done| |done|by eapply blocks_done_spec|].
  { eapply Forall_impl; [by eapply team_trace_threads|].
    intros e He. cbn beta in *. lia. }
  cbn [bind]. rewrite memcpy_all by done. cbn [bind].
  rewrite copy_RoundKey_spec by done. cbn [bind RoundKey].
  destruct (finish_cases ctx buf len Hcall) as [Hrem Hnone].
  exists sc'. split; [|done].
  case_decide as Hm.
  - rewrite (Hrem Hm). reflexivity.
  - destruct (Hnone Hm) as [Hc Hb]. cbv zeta in Hc, Hb. rewrite Hc, Hb. reflexivity.
Qed.

Lemma serial_refill ctx buf k iv buffer bi cur :
  is_block (Iv ctx) ->
  serial_inv AES_ECB_encrypt ctx buf k (iv, buffer, bi, cur) ->
  (if decide (bi = Z.of_nat AES_BLOCKLEN)
   then (counter_add iv 1, AES_ECB_encrypt (RoundKey ctx) iv, 0)
   else (iv, buffer, bi))
  = (counter_add (Iv ctx) (Z.of_nat (k / 16) + 1),
     keystream_block AES_ECB_encrypt (RoundKey ctx) (Iv ctx) (k / 16),
     Z.of_nat (k mod 16)).
Proof.
  intros Hiv [_ Hst]. unfold AES_BLOCKLEN. change (Z.of_nat 16) with 16.
  destruct k as [|k'].
  - destruct Hst as [-> ->]. rewrite decide_True by done.
    unfold keystream_block.
    change (0 / 16)%nat with 0%nat. change (0 mod 16)%nat with 0%nat.
    change (Z.of_nat 0) with 0. by rewrite counter_add_0.
  - destruct Hst as (-> & -> & ->).
    pose proof (Nat.div_mod_eq k' 16) as Hk'.
    pose proof (Nat.mod_upper_bound k' 16 ltac:(lia)) as Hk'm.
    case_decide as Hbi.
    + assert (Hq : (S k' / 16 = k' / 16 + 1)%nat)
        by (symmetry; apply Nat.div_unique with 0%nat; lia).
      assert (Hm : (S k' mod 16 = 0)%nat)
        by (symmetry; apply Nat.mod_unique with (k' / 16 + 1)%nat; lia).
      rewrite Hq, Hm, counter_add_add. unfold keystream_block.
      repeat f_equal; lia.
    + assert (Hq : (S k' / 16 = k' / 16)%nat)
        by (symmetry; apply Nat.div_unique with (k' mod 16 + 1)%nat; lia).
      assert (Hm : (S k' mod 16 = k' mod 16 + 1)%nat)
        by (symmetry; apply Nat.mod_unique with (k' / 16)%nat; lia).
      rewrite Hq, Hm. repeat f_equal; lia.
Qed.

Lemma serial_spec ctx buf len :
  wf_call AES_keyExpSize ctx buf len ->
  AES_CTR_xcrypt_buffer AES_ECB_encrypt ctx buf len
  = Ok (ctr_context ctx len, ctr_buffer AES_ECB_encrypt ctx buf len).
Proof.
  intros ((Hiv & Hrk) & Hsz & Hbuf). unfold is_size_t, SIZE_BITS in Hsz.
  unfold AES_CTR_xcrypt_buffer.
  edestruct (for_range_inv
    (fun i '(iv, buffer, bi, buf) =>
       let '(iv, buffer, bi) :=
         if decide (bi = Z.of_nat AES_BLOCKLEN)
         then (counter_add iv 1, AES_ECB_encrypt (RoundKey ctx) iv, 0)
         else (iv, buffer, bi) in
       let* k := load ArrayOutOfBounds buffer bi in
       let* buf := xor_store buf i k in
       Ok (iv, buffer, bi + 1, buf))
    (Z.to_nat len) (serial_inv AES_ECB_encrypt ctx buf) 0
    (Iv ctx, local_array AES_BLOCKLEN, Z.of_nat AES_BLOCKLEN, buf))
    as ([[[iv buffer] bi] cur] & Hrun & Hcur & Hst).
  - split; [|done]. symmetry. apply xor_where_none. lia.
  - intros k [[[iv buffer] bi] cur] Hk Hinv.
    rewrite (serial_refill ctx buf k iv buffer bi cur Hiv Hinv).
    destruct Hinv as [-> _].
    pose proof (Nat.mod_upper_bound k 16 ltac:(lia)) as Hkm.
    pose proof (keystream_block_length (RoundKey ctx) (Iv ctx) (k / 16)) as Hks.
    unfold AES_BLOCKLEN in Hks.
    destruct (lookup_lt_is_Some_2 (keystream_block AES_ECB_encrypt (RoundKey ctx) (Iv ctx) (k / 16))
                (k mod 16) ltac:(lia)) as [kb Hkb].
    unfold load. rewrite Nat2Z.id, Hkb. cbn [bind].
    rewrite (xor_store_extend _ (keystream AES_ECB_encrypt (RoundKey ctx) (Iv ctx)) buf k);
      [|lia|lia|lia|].
    + cbn [bind]. eexists (_, _, _, _). split; [reflexivity|].
      split; [apply xor_where_ext; [lia|done] | done].
    + unfold keystream, AES_BLOCKLEN. symmetry. by apply nth_lookup_byte.
  - rewrite Hrun. cbn [bind]. unfold ctr_context, ctr_buffer. f_equal. f_equal.
    + f_equal. destruct (Z.to_nat len) as [|k'] eqn:Hlen.
      * destruct Hst as [-> _]. replace len with 0 by lia.
        symmetry. by apply counter_add_0.
      * destruct Hst as (-> & _). f_equal.
        replace len with (Z.of_nat k' + 1) by lia.
        pose proof (Nat.div_mod_eq k' 16).
        pose proof (Nat.mod_upper_bound k' 16 ltac:(lia)).
        apply Z.div_unique with (Z.of_nat (k' mod 16)); lia.
    + rewrite Hcur. apply xor_where_ext; [lia|done].
Qed.

(** Every variant, on every trace of its team, computes [ctr_context] and
    [ctr_buffer]. *)
Lemma ctrTransform_spec s W tr sc ctx buf len :
  wf_call AES_keyExpSize ctx buf len -> wf_scratch sc ->
  team_trace W (num_blocks_of len) tr -> team_fits s W ->
  exists sc',
    ctrTransform AES_keyExpSize AES_ECB_encrypt s tr sc ctx buf len
    = Ok (sc', ctr_context ctx len, ctr_buffer AES_ECB_encrypt ctx buf len)
    /\ wf_scratch sc'.
Proof.
  intros Hcall Hsc Htr Hfit. destruct s; cbn [ctrTransform team_fits] in *.
  - exists sc. by rewrite (openmp_spec W).
  - exists sc. by rewrite nowait_same, (openmp_spec W).
  - exists sc. by rewrite (shared_ctx_spec W).
  - by apply (false_sharing_spec W).
Qed.

Lemma thread_counts_fit s W : W ∈ thread_counts -> team_fits s W.
Proof.
  intros HW. destruct s; cbn; try done.
  unfold thread_counts in HW. unfold MAX_THREADS.
  repeat (apply elem_of_cons in HW as [->|HW]; [lia|]).
  by apply elem_of_nil in HW.
Qed.

Lemma lookup_ctr_buffer ctx buf len j :
  ctr_buffer AES_ECB_encrypt ctx buf len !! j
  = (fun b => if decide (Z.of_nat j < len)
              then xor8 b (keystream AES_ECB_encrypt (RoundKey ctx) (Iv ctx) j)
              else b) <$> buf !! j.
Proof. unfold ctr_buffer. apply lookup_xor_where. Qed.

(** C1. Worker-count invariance: for every worker count of the harness
    (1, 2, 4, 8, 16), every variant and every trace of the team, the
    parallel transform returns the buffer (and the context) that the serial
    reference returns on the same inputs; so all variants agree with each
    other. *)
Theorem parallel_matches_serial s W tr sc ctx buf len :
  W ∈ thread_counts ->
  wf_call AES_keyExpSize ctx buf len -> wf_scratch sc ->
  team_trace W (num_blocks_of len) tr ->
  exists sc' ctx' buf',
    ctrTransform AES_keyExpSize AES_ECB_encrypt s tr sc ctx buf len
      = Ok (sc', ctx', buf') /\
    AES_CTR_xcrypt_buffer AES_ECB_encrypt ctx buf len = Ok (ctx', buf').
Proof.
  intros HW Hcall Hsc Htr.
  destruct (ctrTransform_spec s W tr sc ctx buf len) as (sc' & Hrun & _);
    [done|done|done|by apply thread_counts_fit|].
  exists sc', (ctr_context ctx len), (ctr_buffer AES_ECB_encrypt ctx buf len).
  split; [done|]. by apply serial_spec.
Qed.

(** C2. Counter advancement: after a call on [len] bytes the counter of the
    context, read big-endian, is the initial counter plus [ceil (len / 16)]
    modulo [2^128]; for [len = 0] it is unchanged. *)
Theorem counter_advances s W tr sc ctx buf len :
  wf_call AES_keyExpSize ctx buf len -> wf_scratch sc ->
  team_trace W (num_blocks_of len) tr -> team_fits s W ->
  exists sc' ctx' buf' c,
    ctrTransform AES_keyExpSize AES_ECB_encrypt s tr sc ctx buf len
      = Ok (sc', ctx', buf') /\
    16 * (c - 1) < len <= 16 * c /\
    is_block (Iv ctx') /\
    be_decode (Iv ctx') = (be_decode (Iv ctx) + c) mod 2 ^ 128 /\
    (len = 0 -> Iv ctx' = Iv ctx).
Proof.
  intros Hcall Hsc Htr Hfit.
  destruct (ctrTransform_spec s W tr sc ctx buf len) as (sc' & Hrun & _);
    [done..|].
  exists sc', (ctr_context ctx len), (ctr_buffer AES_ECB_encrypt ctx buf len),
    ((len + 15) / 16).
  destruct Hcall as ((Hiv & _) & Hsz & _). unfold is_size_t in Hsz.
  split; [done|]. cbn [ctr_context Iv].
  pose proof (Z.div_mod (len + 15) 16 ltac:(lia)).
  pose proof (Z.mod_pos_bound (len + 15) 16 ltac:(lia)).
  split; [lia|]. split; [apply counter_add_block|].
  split; [apply counter_add_decode|].
  intros ->. by apply counter_add_0.
Qed.

(** C9. Frame condition: a call changes neither the key schedule of the
    context, nor the length of the buffer, nor any byte of the buffer at an
    index [>= len]; what it returns differs from what it was given in
    [buf[0 .. len)] and in the counter only. *)
Theorem frame_condition s W tr sc ctx buf len :
  wf_call AES_keyExpSize ctx buf len -> wf_scratch sc ->
  team_trace W (num_blocks_of len) tr -> team_fits s W ->
  exists sc' ctx' buf',
    ctrTransform AES_keyExpSize AES_ECB_encrypt s tr sc ctx buf len
      = Ok (sc', ctx', buf') /\
    RoundKey ctx' = RoundKey ctx /\
    length buf' = length buf /\
    forall j : nat, len <= Z.of_nat j -> buf' !! j = buf !! j.
Proof.
  intros Hcall Hsc Htr Hfit.
  destruct (ctrTransform_spec s W tr sc ctx buf len) as (sc' & Hrun & _);
    [done..|].
  exists sc', (ctr_context ctx len), (ctr_buffer AES_ECB_encrypt ctx buf len).
  split; [done|]. split; [done|]. split.
  - unfold ctr_buffer. apply length_xor_where.
  - intros j Hj. rewrite lookup_ctr_buffer.
    destruct (buf !! j) as [b|]; [|done]. cbn.
    by rewrite decide_False by lia.
Qed.

(** C4. Remainder finisher: when [len mod 16 <> 0], the bytes
    [buf[16 * num_blocks .. len)] are XORed with the leading bytes of the
    keystream block of the counter [initial + num_blocks], no byte from
    [len] on is touched, and the counter ends one past [initial +
    num_blocks]; when [len mod 16 = 0], nothing from [16 * num_blocks] on is
    touched and the counter ends at [initial + num_blocks]. *)
Theorem remainder_finisher s W tr sc ctx buf len :
  wf_call AES_keyExpSize ctx buf len -> wf_scratch sc ->
  team_trace W (num_blocks_of len) tr -> team_fits s W ->
  exists sc' ctx' buf',
    ctrTransform AES_keyExpSize AES_ECB_encrypt s tr sc ctx buf len
      = Ok (sc', ctx', buf') /\
    (len mod 16 <> 0 ->
       (forall (j : nat) b,
          (16 * num_blocks_of len <= j)%nat -> Z.of_nat j < len ->
          buf !! j = Some b ->
          buf' !! j =
            Some (xor8 b (nth (j - 16 * num_blocks_of len)
                            (AES_ECB_encrypt (RoundKey ctx)
                               (counter_add (Iv ctx) (Z.of_nat (num_blocks_of len))))
                            0))) /\
       (forall j : nat, len <= Z.of_nat j -> buf' !! j = buf !! j) /\
       Iv ctx' = counter_add (counter_add (Iv ctx) (Z.of_nat (num_blocks_of len))) 1) /\
    (len mod 16 = 0 ->
       (forall j : nat, (16 * num_blocks_of len <= j)%nat -> buf' !! j = buf !! j) /\
       Iv ctx' = counter_add (Iv ctx) (Z.of_nat (num_blocks_of len))).
Proof.
  intros Hcall Hsc Htr Hfit.
  destruct (ctrTransform_spec s W tr sc ctx buf len) as (sc' & Hrun & _);
    [done..|].
  exists sc', (ctr_context ctx len), (ctr_buffer AES_ECB_encrypt ctx buf len).
  split; [done|].
  destruct Hcall as (_ & Hsz & _). unfold is_size_t, SIZE_BITS in Hsz.
  destruct (length_split len ltac:(lia)) as (n & r & Hlen & Hr & Hq & Hm).
  unfold num_blocks_of, AES_BLOCKLEN. change (Z.of_nat 16) with 16.
  rewrite Hq, Nat2Z.id, Hm. cbn [ctr_context Iv]. split; intros Hrem.
  - split; [|split].
    + intros j b Hlo Hhi Hb. rewrite lookup_ctr_buffer, Hb. cbn.
      rewrite decide_True by done. do 2 f_equal.
      unfold keystream, keystream_block, AES_BLOCKLEN.
      assert (Hjq : (j / 16)%nat = n)
        by (symmetry; apply Nat.div_unique with (j - 16 * n)%nat; lia).
      assert (Hjm : (j mod 16)%nat = (j - 16 * n)%nat)
        by (symmetry; apply Nat.mod_unique with n; lia).
      by rewrite Hjq, Hjm.
    + intros j Hj. rewrite lookup_ctr_buffer.
      destruct (buf !! j) as [b|]; [|done]. cbn. by rewrite decide_False by lia.
    + rewrite counter_add_add. f_equal.
      symmetry. apply Z.div_unique with (Z.of_nat r - 1); lia.
  - split.
    + intros j Hj. rewrite lookup_ctr_buffer.
      destruct (buf !! j) as [b|]; [|done]. cbn. by rewrite decide_False by lia.
    + f_equal. symmetry. apply Z.div_unique with 15; lia.
Qed.

(** C5. Involution: a call, followed by a call with a context
    re-initialised to the same key schedule and counter, gives back the
    original buffer; the two runs may use different teams. *)
Theorem encrypt_then_decrypt s W1 tr1 W2 tr2 sc ctx buf len :
  wf_call AES_keyExpSize ctx buf len -> Forall is_byte buf -> wf_scratch sc ->
  team_trace W1 (num_blocks_of len) tr1 -> team_fits s W1 ->
  team_trace W2 (num_blocks_of len) tr2 -> team_fits s W2 ->
  exists sc1 ctx1 buf1 sc2 ctx2,
    ctrTransform AES_keyExpSize AES_ECB_encrypt s tr1 sc ctx buf len
      = Ok (sc1, ctx1, buf1) /\
    ctrTransform AES_keyExpSize AES_ECB_encrypt s tr2 sc1 ctx buf1 len
      = Ok (sc2, ctx2, buf).
Proof.
  intros Hcall Hbytes Hsc Htr1 Hfit1 Htr2 Hfit2.
  destruct (ctrTransform_spec s W1 tr1 sc ctx buf len) as (sc1 & Hrun1 & Hsc1);
    [done..|].
  assert (Hcall1 : wf_call AES_keyExpSize ctx
                     (ctr_buffer AES_ECB_encrypt ctx buf len) len).
  { destruct Hcall as (Hctx & Hsz & Hbuf). split; [done|]. split; [done|].
    unfold ctr_buffer. by rewrite length_xor_where. }
  destruct (ctrTransform_spec s W2 tr2 sc1 ctx
              (ctr_buffer AES_ECB_encrypt ctx buf len) len)
    as (sc2 & Hrun2 & _); [done..|].
  exists sc1, (ctr_context ctx len), (ctr_buffer AES_ECB_encrypt ctx buf len),
    sc2, (ctr_context ctx len).
  split; [done|]. rewrite Hrun2. do 2 f_equal.
  unfold ctr_buffer. apply xor_where_involutive.
  intros j b _ Hb. exact (Forall_lookup_1 _ buf j b Hbytes Hb).
Qed.

Lemma omp_for_false_sharing_fault rk iv (tr : list event) : forall sc buf buf',
  wf_scratch sc -> length iv = AES_BLOCKLEN ->
  omp_for tr (fun _ block_idx buf => block_body AES_ECB_encrypt rk iv block_idx buf) buf
    = Ok buf' ->
  Exists (fun e : event => (MAX_THREADS <= e.1)%nat) tr ->
  omp_for tr (block_body_false_sharing AES_ECB_encrypt rk iv) (sc, buf)
  = Fault ScratchOutOfBounds.
Proof.
  induction tr as [|[t b] tr IH]; intros sc buf buf' Hsc Hiv Hrun Hex.
  - by apply Exists_nil in Hex.
  - cbn [omp_for] in *.
    destruct (block_body AES_ECB_encrypt rk iv (Z.of_nat b) buf) as [buf1|f] eqn:Hb;
      [|done].
    cbn [bind] in Hrun.
    destruct (decide (t < MAX_THREADS)%nat) as [Ht|Ht].
    + destruct (block_body_false_sharing_spec rk iv t (Z.of_nat b) sc buf buf1)
        as (sc1 & -> & Hsc1); [done..|].
      cbn [bind]. apply (IH sc1 buf1 buf'); [done..|].
      apply Exists_cons in Hex as [Hhd|Htl]; [cbn in Hhd; lia | done].
    + unfold block_body_false_sharing, row.
      destruct Hsc as (_ & Hi & _).
      rewrite (lookup_ge_None_2 (thread_ivs sc) t) by lia. done.
Qed.

(** C10. The scratch arrays of the false-sharing variant: when the team has
    at most [MAX_THREADS] threads, every row that a thread selects with its
    id exists, and the call completes; the function makes no check, and a
    thread whose id is [MAX_THREADS] or more indexes past the arrays on its
    first iteration. *)
Theorem false_sharing_scratch_bounds W tr sc ctx buf len :
  wf_call AES_keyExpSize ctx buf len -> wf_scratch sc ->
  team_trace W (num_blocks_of len) tr ->
  ((W <= MAX_THREADS)%nat ->
     Forall (fun e : event =>
               (e.1 < length (thread_ivs sc))%nat /\
               (e.1 < length (thread_buffers sc))%nat) tr /\
     exists r,
       AES_CTR_xcrypt_buffer_openmp_false_sharing AES_keyExpSize AES_ECB_encrypt
         tr sc ctx buf len = Ok r) /\
  (Exists (fun e : event => (MAX_THREADS <= e.1)%nat) tr ->
     AES_CTR_xcrypt_buffer_openmp_false_sharing AES_keyExpSize AES_ECB_encrypt
       tr sc ctx buf len = Fault ScratchOutOfBounds).
Proof.
  intros Hcall Hsc Htr. split.
  - intros HW. split.
    + destruct Hsc as (Hb & Hi & _). rewrite Hb, Hi.
      eapply Forall_impl; [by eapply team_trace_threads|].
      intros e He. cbn beta in *. lia.
    + destruct (false_sharing_spec W tr sc ctx buf len) as (sc' & Hrun & _);
        [done..|].
      eexists. exact Hrun.
  - intros Hex. pose proof Hcall as (((Hivlen & _) & Hrk) & _).
    unfold AES_CTR_xcrypt_buffer_openmp_false_sharing.
    rewrite memcpy_all by (done || apply local_array_length). cbn [bind].
    rewrite copy_RoundKey_spec by done. cbn [bind].
    rewrite (omp_for_false_sharing_fault (RoundKey ctx) (Iv ctx) tr sc buf
               (ctr_buffer AES_ECB_encrypt ctx buf (16 * (len / 16))));
      [done|done|done|by eapply blocks_done_spec|done].
Qed.

End CTRFacts.

(** *** Claims on the counter arithmetic and on the partition *)

(** C3. [IncrementIvBy] rewrites a 16-byte counter to the big-endian encoding
    of its value plus [k], modulo [2^128]: the carry runs from the last
    byte to the first and what does not fit is dropped. It is a total
    function: no input makes it fail. *)
Theorem IncrementIvBy_adds iv k :
  is_block iv -> is_size_t k ->
  IncrementIvBy iv k = be_encode AES_BLOCKLEN ((be_decode iv + k) mod 2 ^ 128) /\
  is_block (IncrementIvBy iv k) /\
  be_decode (IncrementIvBy iv k) = (be_decode iv + k) mod 2 ^ 128.
Proof.
  intros Hiv Hk. rewrite IncrementIvBy_counter_add by done.
  split; [done|]. split; [apply counter_add_block | apply counter_add_decode].
Qed.

(** C8. [IncrementIvBy] is additive: incrementing by [k1] and then by [k2]
    is incrementing by [k1 + k2], when the sum is a [size_t]; incrementing
    by zero changes nothing. *)
Theorem IncrementIvBy_additive iv k1 k2 :
  is_block iv -> 0 <= k1 -> 0 <= k2 -> is_size_t (k1 + k2) ->
  IncrementIvBy (IncrementIvBy iv k1) k2 = IncrementIvBy iv (k1 + k2) /\
  IncrementIvBy iv 0 = iv.
Proof.
  intros Hiv Hk1 Hk2 Hsum. unfold is_size_t in *. split; [|reflexivity].
  rewrite (IncrementIvBy_counter_add iv k1) by (done || unfold is_size_t; lia).
  rewrite IncrementIvBy_counter_add
    by (apply counter_add_block || unfold is_size_t; lia).
  rewrite IncrementIvBy_counter_add by done.
  apply counter_add_add.
Qed.

(** C6. The static partition: for [num_workers >= 1], every block index in
    [[0, num_blocks)] lies in the range of exactly one worker; the ranges
    are intervals, each starting where the previous one ends, from [0] to
    [num_blocks]; they hold only blocks of the loop; their sizes differ by
    at most one; and with more workers than blocks, the workers from
    [num_blocks] on get the empty range. *)
Theorem static_partition_exact (num_blocks num_workers : nat) :
  (1 <= num_workers)%nat ->
  (forall b, (b < num_blocks)%nat ->
     exists t, (t < num_workers)%nat /\
       b ∈ work_range num_blocks num_workers t /\
       forall t', b ∈ work_range num_blocks num_workers t' -> t' = t) /\
  (forall t b, (t < num_workers)%nat ->
     b ∈ work_range num_blocks num_workers t -> (b < num_blocks)%nat) /\
  (forall t b, b ∈ work_range num_blocks num_workers t <->
     (range_start num_blocks num_workers t <= b
      < range_end num_blocks num_workers t)%nat) /\
  range_start num_blocks num_workers 0 = 0%nat /\
  (forall t, range_start num_blocks num_workers (S t)
             = range_end num_blocks num_workers t) /\
  range_start num_blocks num_workers num_workers = num_blocks /\
  mjoin (partition num_blocks num_workers) = seq 0 num_blocks /\
  (forall t1 t2, (range_size num_blocks num_workers t1
                  <= range_size num_blocks num_workers t2 + 1)%nat) /\
  ((num_blocks < num_workers)%nat ->
     forall t, (num_blocks <= t)%nat -> work_range num_blocks num_workers t = []).
Proof.
  intros HW.
  split; [|split; [|split; [|split; [|split; [|split; [|split; [|split]]]]]]].
  - intros b Hb. destruct (work_range_cover num_blocks num_workers HW b Hb)
      as (t & Ht & Hin).
    exists t. split; [done|]. split; [done|].
    intros t' Hin'. by apply (work_range_disjoint num_blocks num_workers HW b).
  - intros t b Ht Hin. apply elem_of_work_range in Hin.
    pose proof (range_end_bound num_blocks num_workers HW t Ht). lia.
  - intros t b. exact (elem_of_work_range num_blocks num_workers b t).
  - by apply range_start_0.
  - by apply range_start_S.
  - by apply range_start_last.
  - by apply concat_partition.
  - by apply range_size_balanced.
  - intros Hlt t Ht. by apply work_range_excess.
Qed.





(** *** The claims on concrete inputs *)

Lemma demo_cipher_length rk blk :
  length blk = AES_BLOCKLEN -> length (demo_cipher rk blk) = AES_BLOCKLEN.
Proof. intros H. unfold demo_cipher. by rewrite length_fmap. Qed.

Lemma parallel_matches_serial_witness :
  2%nat ∈ thread_counts /\
  wf_call demo_keyExpSize demo_ctx demo_buf 37 /\
  wf_scratch demo_scratch /\
  team_trace 2 (num_blocks_of 37) demo_trace /\
  exists sc' ctx' buf',
    ctrTransform demo_keyExpSize demo_cipher openmp_false_sharing
      demo_trace demo_scratch demo_ctx demo_buf 37 = Ok (sc', ctx', buf') /\
    AES_CTR_xcrypt_buffer demo_cipher demo_ctx demo_buf 37 = Ok (ctx', buf').
Proof.
  assert (H1 : 2%nat ∈ thread_counts) by by_computation.
  assert (H2 : wf_call demo_keyExpSize demo_ctx demo_buf 37) by by_computation.
  assert (H3 : wf_scratch demo_scratch) by by_computation.
  assert (H4 : team_trace 2 (num_blocks_of 37) demo_trace) by by_computation.
  split; [exact H1|]. split; [exact H2|]. split; [exact H3|]. split; [exact H4|].
  exact (parallel_matches_serial demo_keyExpSize demo_cipher demo_cipher_length
           openmp_false_sharing 2 demo_trace demo_scratch demo_ctx demo_buf 37
           H1 H2 H3 H4).
Defined.

Lemma counter_advances_witness :
  wf_call demo_keyExpSize demo_ctx demo_buf 37 /\
  wf_scratch demo_scratch /\
  team_trace 2 (num_blocks_of 37) demo_trace /\
  team_fits openmp_shared_ctx 2 /\
  exists sc' ctx' buf' c,
    ctrTransform demo_keyExpSize demo_cipher openmp_shared_ctx
      demo_trace demo_scratch demo_ctx demo_buf 37 = Ok (sc', ctx', buf') /\
    16 * (c - 1) < 37 <= 16 * c /\
    is_block (Iv ctx') /\
    be_decode (Iv ctx') = (be_decode (Iv demo_ctx) + c) mod 2 ^ 128 /\
    (37 = 0 -> Iv ctx' = Iv demo_ctx).
Proof.
  assert (H1 : wf_call demo_keyExpSize demo_ctx demo_buf 37) by by_computation.
  assert (H2 : wf_scratch demo_scratch) by by_computation.
  assert (H3 : team_trace 2 (num_blocks_of 37) demo_trace) by by_computation.
  assert (H4 : team_fits openmp_shared_ctx 2) by exact I.
  split; [exact H1|]. split; [exact H2|]. split; [exact H3|]. split; [exact H4|].
  exact (counter_advances demo_keyExpSize demo_cipher demo_cipher_length
           openmp_shared_ctx 2 demo_trace demo_scratch demo_ctx demo_buf 37
           H1 H2 H3 H4).
Defined.

Lemma IncrementIvBy_adds_witness :
  is_block (replicate 16 255) /\ is_size_t 3 /\
  IncrementIvBy (replicate 16 255) 3
    = be_encode AES_BLOCKLEN ((be_decode (replicate 16 255) + 3) mod 2 ^ 128) /\
  is_block (IncrementIvBy (replicate 16 255) 3) /\
  be_decode (IncrementIvBy (replicate 16 255) 3)
    = (be_decode (replicate 16 255) + 3) mod 2 ^ 128.
Proof.
  assert (H1 : is_block (replicate 16 255)) by by_computation.
  assert (H2 : is_size_t 3) by by_computation.
  split; [exact H1|]. split; [exact H2|].
  exact (IncrementIvBy_adds (replicate 16 255) 3 H1 H2).
Defined.

Lemma remainder_finisher_witness :
  wf_call demo_keyExpSize demo_ctx demo_buf 37 /\
  wf_scratch demo_scratch /\
  team_trace 2 (num_blocks_of 37) demo_trace /\
  team_fits openmp 2 /\
  exists sc' ctx' buf',
    ctrTransform demo_keyExpSize demo_cipher openmp
      demo_trace demo_scratch demo_ctx demo_buf 37 = Ok (sc', ctx', buf') /\
    (37 mod 16 <> 0 ->
       (forall (j : nat) b,
          (16 * num_blocks_of 37 <= j)%nat -> Z.of_nat j < 37 ->
          demo_buf !! j = Some b ->
          buf' !! j =
            Some (xor8 b (nth (j - 16 * num_blocks_of 37)
                            (demo_cipher (RoundKey demo_ctx)
                               (counter_add (Iv demo_ctx)
                                  (Z.of_nat (num_blocks_of 37))))
                            0))) /\
       (forall j : nat, 37 <= Z.of_nat j -> buf' !! j = demo_buf !! j) /\
       Iv ctx'
       = counter_add (counter_add (Iv demo_ctx) (Z.of_nat (num_blocks_of 37))) 1) /\
    (37 mod 16 = 0 ->
       (forall j : nat, (16 * num_blocks_of 37 <= j)%nat ->
          buf' !! j = demo_buf !! j) /\
       Iv ctx' = counter_add (Iv demo_ctx) (Z.of_nat (num_blocks_of 37))).
Proof.
  assert (H1 : wf_call demo_keyExpSize demo_ctx demo_buf 37) by by_computation.
  assert (H2 : wf_scratch demo_scratch) by by_computation.
  assert (H3 : team_trace 2 (num_blocks_of 37) demo_trace) by by_computation.
  assert (H4 : team_fits openmp 2) by exact I.
  split; [exact H1|]. split; [exact H2|]. split; [exact H3|]. split; [exact H4|].
  exact (remainder_finisher demo_keyExpSize demo_cipher demo_cipher_length
           openmp 2 demo_trace demo_scratch demo_ctx demo_buf 37
           H1 H2 H3 H4).
Defined.

Lemma encrypt_then_decrypt_witness :
  wf_call demo_keyExpSize demo_ctx demo_buf 37 /\
  Forall is_byte demo_buf /\
  wf_scratch demo_scratch /\
  team_trace 2 (num_blocks_of 37) demo_trace /\
  team_fits openmp_false_sharing 2 /\
  team_trace 1 (num_blocks_of 37) (static_schedule 2 1) /\
  team_fits openmp_false_sharing 1 /\
  exists sc1 ctx1 buf1 sc2 ctx2,
    ctrTransform demo_keyExpSize demo_cipher openmp_false_sharing
      demo_trace demo_scratch demo_ctx demo_buf 37 = Ok (sc1, ctx1, buf1) /\
    ctrTransform demo_keyExpSize demo_cipher openmp_false_sharing
      (static_schedule 2 1) sc1 demo_ctx buf1 37 = Ok (sc2, ctx2, demo_buf).
Proof.
  assert (H1 : wf_call demo_keyExpSize demo_ctx demo_buf 37) by by_computation.
  assert (H2 : Forall is_byte demo_buf) by by_computation.
  assert (H3 : wf_scratch demo_scratch) by by_computation.
  assert (H4 : team_trace 2 (num_blocks_of 37) demo_trace) by by_computation.
  assert (H5 : team_fits openmp_false_sharing 2) by by_computation.
  assert (H6 : team_trace 1 (num_blocks_of 37) (static_schedule 2 1))
    by by_computation.
  assert (H7 : team_fits openmp_false_sharing 1) by by_computation.
  split; [exact H1|]. split; [exact H2|]. split; [exact H3|]. split; [exact H4|].
  split; [exact H5|]. split; [exact H6|]. split; [exact H7|].
  exact (encrypt_then_decrypt demo_keyExpSize demo_cipher demo_cipher_length
           openmp_false_sharing 2 demo_trace 1 (static_schedule 2 1)
           demo_scratch demo_ctx demo_buf 37 H1 H2 H3 H4 H5 H6 H7).
Defined.

Lemma static_partition_exact_witness :
  (1 <= 4)%nat /\
  (forall b, (b < 10)%nat ->
     exists t, (t < 4)%nat /\ b ∈ work_range 10 4 t /\
       forall t', b ∈ work_range 10 4 t' -> t' = t) /\
  (forall t b, (t < 4)%nat -> b ∈ work_range 10 4 t -> (b < 10)%nat) /\
  (forall t b, b ∈ work_range 10 4 t <->
     (range_start 10 4 t <= b < range_end 10 4 t)%nat) /\
  range_start 10 4 0 = 0%nat /\
  (forall t, range_start 10 4 (S t) = range_end 10 4 t) /\
  range_start 10 4 4 = 10%nat /\
  mjoin (partition 10 4) = seq 0 10 /\
  (forall t1 t2, (range_size 10 4 t1 <= range_size 10 4 t2 + 1)%nat) /\
  ((10 < 4)%nat -> forall t, (10 <= t)%nat -> work_range 10 4 t = []).
Proof.
  assert (H1 : (1 <= 4)%nat) by lia.
  split; [exact H1|]. exact (static_partition_exact 10 4 H1).
Defined.


Lemma IncrementIvBy_additive_witness :
  is_block (seqZ 240 16) /\ 0 <= 300 /\ 0 <= 70000 /\ is_size_t (300 + 70000) /\
  IncrementIvBy (IncrementIvBy (seqZ 240 16) 300) 70000
    = IncrementIvBy (seqZ 240 16) (300 + 70000) /\
  IncrementIvBy (seqZ 240 16) 0 = seqZ 240 16.
Proof.
  assert (H1 : is_block (seqZ 240 16)) by by_computation.
  assert (H2 : 0 <= 300) by lia.
  assert (H3 : 0 <= 70000) by lia.
  assert (H4 : is_size_t (300 + 70000)) by by_computation.
  split; [exact H1|]. split; [exact H2|]. split; [exact H3|]. split; [exact H4|].
  exact (IncrementIvBy_additive (seqZ 240 16) 300 70000 H1 H2 H3 H4).
Defined.

Lemma frame_condition_witness :
  wf_call demo_keyExpSize demo_ctx demo_buf 37 /\
  wf_scratch demo_scratch /\
  team_trace 2 (num_blocks_of 37) demo_trace /\
  team_fits openmp_nowait 2 /\
  exists sc' ctx' buf',
    ctrTransform demo_keyExpSize demo_cipher openmp_nowait
      demo_trace demo_scratch demo_ctx demo_buf 37 = Ok (sc', ctx', buf') /\
    RoundKey ctx' = RoundKey demo_ctx /\
    length buf' = length demo_buf /\
    forall j : nat, 37 <= Z.of_nat j -> buf' !! j = demo_buf !! j.
Proof.
  assert (H1 : wf_call demo_keyExpSize demo_ctx demo_buf 37) by by_computation.
  assert (H2 : wf_scratch demo_scratch) by by_computation.
  assert (H3 : team_trace 2 (num_blocks_of 37) demo_trace) by by_computation.
  assert (H4 : team_fits openmp_nowait 2) by exact I.
  split; [exact H1|]. split; [exact H2|]. split; [exact H3|]. split; [exact H4|].
  exact (frame_condition demo_keyExpSize demo_cipher demo_cipher_length
           openmp_nowait 2 demo_trace demo_scratch demo_ctx demo_buf 37
           H1 H2 H3 H4).
Defined.

Lemma false_sharing_scratch_bounds_witness :
  wf_call demo_keyExpSize demo_ctx demo_buf 37 /\
  wf_scratch demo_scratch /\
  team_trace 2 (num_blocks_of 37) demo_trace /\
  ((2 <= MAX_THREADS)%nat ->
     Forall (fun e : event =>
               (e.1 < length (thread_ivs demo_scratch))%nat /\
               (e.1 < length (thread_buffers demo_scratch))%nat) demo_trace /\
     exists r,
       AES_CTR_xcrypt_buffer_openmp_false_sharing demo_keyExpSize demo_cipher
         demo_trace demo_scratch demo_ctx demo_buf 37 = Ok r) /\
  (Exists (fun e : event => (MAX_THREADS <= e.1)%nat) demo_trace ->
     AES_CTR_xcrypt_buffer_openmp_false_sharing demo_keyExpSize demo_cipher
       demo_trace demo_scratch demo_ctx demo_buf 37 = Fault ScratchOutOfBounds).
Proof.
  assert (H1 : wf_call demo_keyExpSize demo_ctx demo_buf 37) by by_computation.
  assert (H2 : wf_scratch demo_scratch) by by_computation.
  assert (H3 : team_trace 2 (num_blocks_of 37) demo_trace) by by_computation.
  split; [exact H1|]. split; [exact H2|]. split; [exact H3|].
  exact (false_sharing_scratch_bounds demo_keyExpSize demo_cipher
           demo_cipher_length 2 demo_trace demo_scratch demo_ctx demo_buf 37
           H1 H2 H3).
Defined.

(** Thread 256 of a team of 257 threads, under the static schedule for 257
    blocks, runs block 256 and indexes past the scratch arrays. *)
Example false_sharing_team_too_large :
  let tr := ((256, 256) :: static_schedule 256 256)%nat in
  let buf := replicate (257 * 16) 0 in
  static_trace 257 257 tr /\
  team_trace 257 (num_blocks_of (257 * 16)) tr /\
  wf_call demo_keyExpSize demo_ctx buf (257 * 16) /\
  AES_CTR_xcrypt_buffer_openmp_false_sharing demo_keyExpSize demo_cipher
    tr demo_scratch demo_ctx buf (257 * 16) = Fault ScratchOutOfBounds.
Proof.
  cbv zeta. split; [by_computation|]. split; [by_computation|].
  split; [by_computation|]. vm_compute. reflexivity.
Qed.

(** The counter wraps at [2^128]. *)
Example IncrementIvBy_wraps :
  IncrementIvBy (replicate 16 255) 1 = replicate 16 0 /\
  IncrementIvBy (replicate 14 0 ++ [255; 255]) (2 ^ 64 - 1)
  = [0; 0; 0; 0; 0; 0; 0; 1; 0; 0; 0; 0; 0; 0; 255; 254].
Proof. split; vm_compute; reflexivity. Qed.

(** A buffer of 17 bytes with four workers: one block in the loop, one byte
    in the tail, and the output of the serial reference. *)
Example seventeen_bytes_four_workers :
  team_trace 4 (num_blocks_of 17) (static_schedule 1 4) /\
  (let* (ctx, buf) :=
     AES_CTR_xcrypt_buffer_openmp demo_keyExpSize demo_cipher
       (static_schedule 1 4) demo_ctx demo_buf 17 in Ok (ctx, buf))
  = AES_CTR_xcrypt_buffer demo_cipher demo_ctx demo_buf 17.
Proof. split; [by_computation | vm_compute; reflexivity]. Qed.

(** ** Part III: further properties of the code *)

(** *** Counter arithmetic *)

Section MoreCounterFacts.

Lemma be_decode_app l1 l2 :
  be_decode (l1 ++ l2) = be_decode l1 * 256 ^ Z.of_nat (length l2) + be_decode l2.
Proof.
  induction l2 as [|b l2 IH] using rev_ind.
  - rewrite app_nil_r. unfold be_decode at 3. cbn. lia.
  - rewrite app_assoc, !be_decode_snoc, IH, length_app. cbn [length].
    replace (Z.of_nat (length l2 + 1)) with (Z.succ (Z.of_nat (length l2))) by lia.
    rewrite Z.pow_succ_r by lia. lia.
Qed.

Lemma be_encode_split n m v :
  be_encode (n + m) v = be_encode n (v / 256 ^ Z.of_nat m) ++ be_encode m v.
Proof.
  revert v. induction m as [|m IH]; intros v.
  - rewrite Nat.add_0_r, Z.div_1_r. cbn [be_encode]. by rewrite app_nil_r.
  - replace (n + S m)%nat with (S (n + m)) by lia. cbn [be_encode].
    rewrite IH, <- app_assoc. do 2 f_equal.
    replace (Z.of_nat (S m)) with (Z.succ (Z.of_nat m)) by lia.
    rewrite Z.pow_succ_r by lia.
    rewrite Z.div_div by (try apply Z.pow_pos_nonneg; lia). done.
Qed.

Lemma counter_add_inj_r iv a b :
  is_size_t a -> is_size_t b -> counter_add iv a = counter_add iv b -> a = b.
Proof.
  unfold is_size_t, SIZE_BITS. intros Ha Hb Heq.
  apply (f_equal be_decode) in Heq. rewrite !counter_add_decode in Heq.
  revert Heq. generalize (be_decode iv). intros d.
  change (2 ^ 64) with 18446744073709551616 in *.
  change (2 ^ 128) with 340282366920938463463374607431768211456.
  intros Heq. Z.div_mod_to_equations. lia.
Qed.

Lemma be_encode_add_low (hi lo : list Z) k :
  Forall is_byte hi -> Forall is_byte lo -> 0 <= k ->
  be_decode lo + k < 256 ^ Z.of_nat (length lo) ->
  be_encode (length hi + length lo) (be_decode (hi ++ lo) + k)
  = hi ++ be_encode (length lo) (be_decode lo + k).
Proof.
  intros Hhi Hlo Hk Hfit. rewrite be_encode_split, be_decode_app.
  pose proof (be_decode_bound _ Hlo) as Hlob.
  assert (HP : 0 < 256 ^ Z.of_nat (length lo)) by (apply Z.pow_pos_nonneg; lia).
  f_equal.
  - assert (Hq : (be_decode hi * 256 ^ Z.of_nat (length lo) + be_decode lo + k)
                 / 256 ^ Z.of_nat (length lo) = be_decode hi)
      by (symmetry; apply Z.div_unique with (be_decode lo + k); lia).
    rewrite Hq. by apply be_encode_decode.
  - rewrite <- (be_encode_mod _ (_ + _ + k)), <- (be_encode_mod _ (be_decode lo + k)).
    f_equal. rewrite <- Z.add_assoc, Z.add_comm, Z.mod_add by lia. done.
Qed.

End MoreCounterFacts.

(** X1. Two increments of a counter in a row add up modulo [2^128], in
    either order, also when the sum of the two amounts is no [size_t]. *)
Theorem IncrementIvBy_twice iv a b :
  is_block iv -> is_size_t a -> is_size_t b ->
  IncrementIvBy (IncrementIvBy iv a) b
    = be_encode AES_BLOCKLEN ((be_decode iv + (a + b)) mod 2 ^ 128) /\
  IncrementIvBy (IncrementIvBy iv a) b = IncrementIvBy (IncrementIvBy iv b) a.
Proof.
  intros Hiv Ha Hb.
  rewrite (IncrementIvBy_counter_add iv a), (IncrementIvBy_counter_add iv b) by done.
  rewrite !IncrementIvBy_counter_add by (done || apply counter_add_block).
  rewrite !counter_add_add. split; [done|]. f_equal. lia.
Qed.

(** X2. Distinct amounts give distinct counters: the counters of two
    different block indices of a call, and the counter of its tail, never
    coincide. *)
Theorem IncrementIvBy_injective iv a b :
  is_block iv -> is_size_t a -> is_size_t b ->
  IncrementIvBy iv a = IncrementIvBy iv b -> a = b.
Proof.
  intros Hiv Ha Hb. rewrite !IncrementIvBy_counter_add by done.
  by apply counter_add_inj_r.
Qed.

(** X3. The carry stays in the low bytes when it can: if the last [m] bytes
    of the counter, read big-endian, plus [k] fit in [m] bytes, then the
    first [16 - m] bytes are left as they are and the last [m] hold the
    sum. *)
Theorem IncrementIvBy_high_bytes_kept iv k (m : nat) :
  is_block iv -> is_size_t k -> (m <= AES_BLOCKLEN)%nat ->
  be_decode (drop (AES_BLOCKLEN - m) iv) + k < 256 ^ Z.of_nat m ->
  take (AES_BLOCKLEN - m) (IncrementIvBy iv k) = take (AES_BLOCKLEN - m) iv /\
  drop (AES_BLOCKLEN - m) (IncrementIvBy iv k)
    = be_encode m (be_decode (drop (AES_BLOCKLEN - m) iv) + k).
Proof.
  intros Hiv Hk Hm Hfit. pose proof Hiv as [Hlen Hbytes].
  rewrite IncrementIvBy_counter_add by done. unfold counter_add.
  change (2 ^ 128) with (256 ^ Z.of_nat AES_BLOCKLEN). rewrite be_encode_mod.
  remember (AES_BLOCKLEN - m)%nat as n eqn:Hn in *.
  assert (Hlenhi : length (take n iv) = n) by (rewrite length_take; lia).
  assert (Hlenlo : length (drop n iv) = m) by (rewrite length_drop; lia).
  assert (Henc : be_encode AES_BLOCKLEN (be_decode iv + k)
                 = take n iv ++ be_encode m (be_decode (drop n iv) + k)).
  { replace AES_BLOCKLEN with (length (take n iv) + length (drop n iv))%nat by lia.
    replace (be_decode iv) with (be_decode (take n iv ++ drop n iv))
      by (by rewrite take_drop).
    rewrite <- Hlenlo.
    apply be_encode_add_low.
    - by apply Forall_take.
    - by apply Forall_drop.
    - apply Hk.
    - by rewrite Hlenlo. }
  rewrite Henc. split.
  - by rewrite take_app_length' by done.
  - by rewrite drop_app_length' by done.
Qed.

(** *** The transforms *)

Section MoreCTRFacts.

Variable AES_keyExpSize : nat.
Variable AES_ECB_encrypt : list Z -> list Z -> list Z.

Hypothesis ECB_length : forall rk blk,
  length blk = AES_BLOCKLEN -> length (AES_ECB_encrypt rk blk) = AES_BLOCKLEN.

Lemma keystream_shift rk iv (c j : nat) :
  keystream AES_ECB_encrypt rk (counter_add iv (Z.of_nat c)) j
  = keystream AES_ECB_encrypt rk iv (16 * c + j).
Proof.
  unfold keystream, keystream_block, AES_BLOCKLEN. rewrite counter_add_add.
  assert (Hq : ((16 * c + j) / 16 = c + j / 16)%nat).
  { rewrite (Nat.mul_comm 16 c), Nat.div_add_l by lia. done. }
  assert (Hm : ((16 * c + j) mod 16 = j mod 16)%nat).
  { rewrite (Nat.mul_comm 16 c), Nat.add_comm, Nat.Div0.mod_add. done. }
  rewrite Hq, Hm. do 3 f_equal. lia.
Qed.

Lemma wf_call_next ctx buf len buf2 len2 :
  wf_call AES_keyExpSize ctx buf len ->
  is_size_t len2 -> len2 <= Z.of_nat (length buf2) ->
  wf_call AES_keyExpSize (ctr_context ctx len) buf2 len2.
Proof.
  intros ((Hiv & Hrk) & _) Hsz Hbuf. split; [|done].
  split; [apply counter_add_block | done].
Qed.

Lemma ctr_buffer_app ctx b1 b2 (c : nat) len2 :
  length b1 = (16 * c)%nat -> 0 <= len2 ->
  ctr_buffer AES_ECB_encrypt ctx (b1 ++ b2) (Z.of_nat (length b1) + len2)
  = ctr_buffer AES_ECB_encrypt ctx b1 (Z.of_nat (length b1))
    ++ ctr_buffer AES_ECB_encrypt (ctr_context ctx (Z.of_nat (length b1))) b2 len2.
Proof.
  intros Hb1 Hlen2. apply list_eq. intros j. rewrite lookup_ctr_buffer.
  assert (Hl1 : length (ctr_buffer AES_ECB_encrypt ctx b1 (Z.of_nat (length b1)))
                = length b1) by (unfold ctr_buffer; apply length_xor_where).
  destruct (decide (j < length b1)%nat) as [Hj|Hj].
  - rewrite !lookup_app_l by lia. rewrite lookup_ctr_buffer.
    destruct (b1 !! j) as [b|]; [|done]. cbn [fmap option_fmap option_map].
    by rewrite !decide_True by lia.
  - rewrite !lookup_app_r by lia. rewrite Hl1, lookup_ctr_buffer.
    destruct (b2 !! (j - length b1)%nat) as [b|]; [|done].
    cbn [fmap option_fmap option_map ctr_context RoundKey Iv].
    replace ((Z.of_nat (length b1) + 15) / 16) with (Z.of_nat c)
      by (apply Z.div_unique with 15; lia).
    rewrite keystream_shift.
    replace (16 * c + (j - length b1))%nat with j by lia.
    destruct (decide (Z.of_nat (j - length b1) < len2)).
    + by rewrite decide_True by lia.
    + by rewrite decide_False by lia.
Qed.

(** X4. A second call continues where the first stopped, in whole blocks:
    after a call on [len1] bytes, a call with the returned context XORs
    byte [j] of its buffer with byte [j mod 16] of the cipher output on the
    counter [initial + ceil (len1 / 16) + j / 16]. What was left of the last
    keystream block of the first call is not used. *)
Theorem second_call_keystream s W1 tr1 W2 tr2 sc ctx b1 len1 b2 len2 :
  wf_call AES_keyExpSize ctx b1 len1 -> wf_scratch sc ->
  team_trace W1 (num_blocks_of len1) tr1 -> team_fits s W1 ->
  is_size_t len2 -> len2 <= Z.of_nat (length b2) ->
  team_trace W2 (num_blocks_of len2) tr2 -> team_fits s W2 ->
  exists sc1 ctx1 b1' sc2 ctx2 b2',
    ctrTransform AES_keyExpSize AES_ECB_encrypt s tr1 sc ctx b1 len1
      = Ok (sc1, ctx1, b1') /\
    ctrTransform AES_keyExpSize AES_ECB_encrypt s tr2 sc1 ctx1 b2 len2
      = Ok (sc2, ctx2, b2') /\
    (forall (j : nat) b, Z.of_nat j < len2 -> b2 !! j = Some b ->
       b2' !! j =
         Some (xor8 b (nth (j mod 16)%nat
                         (AES_ECB_encrypt (RoundKey ctx)
                            (counter_add (Iv ctx)
                               ((len1 + 15) / 16 + Z.of_nat (j / 16))))
                         0))) /\
    (forall j : nat, len2 <= Z.of_nat j -> b2' !! j = b2 !! j) /\
    Iv ctx2 = counter_add (Iv ctx) ((len1 + 15) / 16 + (len2 + 15) / 16).
Proof.
  intros Hcall Hsc Htr1 Hfit1 Hsz2 Hbuf2 Htr2 Hfit2.
  destruct (ctrTransform_spec AES_keyExpSize AES_ECB_encrypt ECB_length
              s W1 tr1 sc ctx b1 len1) as (sc1 & Hrun1 & Hsc1); [done..|].
  destruct (ctrTransform_spec AES_keyExpSize AES_ECB_encrypt ECB_length
              s W2 tr2 sc1 (ctr_context ctx len1) b2 len2) as (sc2 & Hrun2 & _);
    [by eapply wf_call_next|done..|].
  eexists _, _, _, _, _, _. split; [exact Hrun1|]. split; [exact Hrun2|].
  split; [|split].
  - intros j b Hj Hb. rewrite lookup_ctr_buffer, Hb. cbn [fmap option_fmap option_map].
    rewrite decide_True by done. do 2 f_equal.
    unfold keystream, keystream_block, AES_BLOCKLEN. cbn [ctr_context RoundKey Iv].
    by rewrite counter_add_add.
  - intros j Hj. rewrite lookup_ctr_buffer.
    destruct (b2 !! j) as [b|]; [|done]. cbn [fmap option_fmap option_map]. by rewrite decide_False by lia.
  - cbn [ctr_context Iv]. apply counter_add_add.
Qed.

(** X5. Chunked calls compose: a call on a first chunk of whole blocks,
    followed by a call on the rest with the returned context, returns the
    buffer and the context of one call on the whole. *)
Theorem chunked_calls_compose s W1 tr1 W2 tr2 W tr sc ctx b1 b2 len2 :
  wf_ctx AES_keyExpSize ctx -> wf_scratch sc ->
  Z.of_nat (length b1) mod 16 = 0 ->
  0 <= len2 <= Z.of_nat (length b2) ->
  is_size_t (Z.of_nat (length b1) + len2) ->
  team_trace W1 (num_blocks_of (Z.of_nat (length b1))) tr1 -> team_fits s W1 ->
  team_trace W2 (num_blocks_of len2) tr2 -> team_fits s W2 ->
  team_trace W (num_blocks_of (Z.of_nat (length b1) + len2)) tr -> team_fits s W ->
  exists sc1 ctx1 b1' sc2 ctx2 b2' sc3,
    ctrTransform AES_keyExpSize AES_ECB_encrypt s tr1 sc ctx b1
      (Z.of_nat (length b1)) = Ok (sc1, ctx1, b1') /\
    ctrTransform AES_keyExpSize AES_ECB_encrypt s tr2 sc1 ctx1 b2 len2
      = Ok (sc2, ctx2, b2') /\
    ctrTransform AES_keyExpSize AES_ECB_encrypt s tr sc ctx (b1 ++ b2)
      (Z.of_nat (length b1) + len2) = Ok (sc3, ctx2, b1' ++ b2').
Proof.
  intros Hctx Hsc Hmod Hlen2 Hsz Htr1 Hfit1 Htr2 Hfit2 Htr Hfit.
  unfold is_size_t in Hsz.
  assert (Hcall1 : wf_call AES_keyExpSize ctx b1 (Z.of_nat (length b1)))
    by (split; [done|]; unfold is_size_t; lia).
  assert (Hcall : wf_call AES_keyExpSize ctx (b1 ++ b2) (Z.of_nat (length b1) + len2))
    by (split; [done|]; unfold is_size_t; rewrite length_app; lia).
  destruct (ctrTransform_spec AES_keyExpSize AES_ECB_encrypt ECB_length
              s W1 tr1 sc ctx b1 (Z.of_nat (length b1))) as (sc1 & Hrun1 & Hsc1);
    [done..|].
  destruct (ctrTransform_spec AES_keyExpSize AES_ECB_encrypt ECB_length
              s W2 tr2 sc1 (ctr_context ctx (Z.of_nat (length b1))) b2 len2)
    as (sc2 & Hrun2 & _);
    [eapply wf_call_next; [done| unfold is_size_t; lia | lia] |done..|].
  destruct (ctrTransform_spec AES_keyExpSize AES_ECB_encrypt ECB_length
              s W tr sc ctx (b1 ++ b2) (Z.of_nat (length b1) + len2))
    as (sc3 & Hrun & _); [done..|].
  eexists _, _, _, _, _, _, sc3. split; [exact Hrun1|]. split; [exact Hrun2|].
  rewrite Hrun. do 2 f_equal.
  - unfold ctr_context. cbn [RoundKey Iv]. f_equal. rewrite counter_add_add. f_equal.
    f_equal. Z.div_mod_to_equations. lia.
  - destruct (length_split (Z.of_nat (length b1)) ltac:(lia)) as (c & r & Hl & Hr & Hq & Hm).
    apply (ctr_buffer_app ctx b1 b2 c); lia.
Qed.

(** X6. The empty call: with [length = 0] every variant returns the
    context, the buffer and the scratch arrays exactly as they were. *)
Theorem zero_length_is_identity s W tr sc ctx buf :
  wf_ctx AES_keyExpSize ctx -> team_trace W (num_blocks_of 0) tr ->
  ctrTransform AES_keyExpSize AES_ECB_encrypt s tr sc ctx buf 0 = Ok (sc, ctx, buf).
Proof.
  intros [[Hivlen _] Hrk] (Hev & _).
  assert (tr = []) as ->.
  { destruct Hev as [|e tr [_ He] _]; [done|].
    change (num_blocks_of 0) with 0%nat in He. lia. }
  pose proof (copy_RoundKey_spec AES_keyExpSize ctx Hrk) as Hcopy.
  assert (Hinit : memcpy (local_array AES_BLOCKLEN) (Iv ctx) AES_BLOCKLEN = Ok (Iv ctx))
    by (apply memcpy_all; [done | apply local_array_length]).
  assert (Hback : memcpy (Iv ctx) (Iv ctx) AES_BLOCKLEN = Ok (Iv ctx))
    by (by apply memcpy_all).
  destruct ctx as [rk iv]. cbn [RoundKey Iv] in *.
  destruct s; cbn [ctrTransform];
    unfold AES_CTR_xcrypt_buffer_openmp, AES_CTR_xcrypt_buffer_openmp_nowait,
      AES_CTR_xcrypt_buffer_openmp_shared_ctx,
      AES_CTR_xcrypt_buffer_openmp_false_sharing;
    cbn [RoundKey Iv]; rewrite Hinit; cbn [bind]; rewrite ?Hcopy;
    cbn [bind omp_for]; rewrite Hback; reflexivity.
Qed.

Lemma xor8_of_zero b k : xor8 b (xor8 0 k) = xor8 b k.
Proof.
  unfold xor8, u8. rewrite Z.lxor_0_l.
  change 256 with (2 ^ 8). rewrite <- !Z.land_ones by lia.
  apply Z.bits_inj'. intros n Hn.
  rewrite !Z.land_spec, !Z.lxor_spec, !Z.land_spec.
  destruct (Z.testbit b n), (Z.testbit k n), (Z.testbit (Z.ones 8) n); done.
Qed.

Lemma xor8_zero_r b : is_byte b -> xor8 b 0 = b.
Proof.
  unfold is_byte, xor8, u8. intros Hb. rewrite Z.lxor_0_r. by apply Z.mod_small.
Qed.

(** X7. The keystream does not depend on the data: the output of a call is
    its input XORed, byte by byte, with the output of the same call on a
    buffer of zeros. *)
Theorem keystream_is_data_independent s W tr sc ctx buf len :
  wf_call AES_keyExpSize ctx buf len -> Forall is_byte buf -> wf_scratch sc ->
  team_trace W (num_blocks_of len) tr -> team_fits s W ->
  exists sc1 ctx' buf' sc2 K,
    ctrTransform AES_keyExpSize AES_ECB_encrypt s tr sc ctx buf len
      = Ok (sc1, ctx', buf') /\
    ctrTransform AES_keyExpSize AES_ECB_encrypt s tr sc ctx
      (replicate (length buf) 0) len = Ok (sc2, ctx', K) /\
    buf' = zip_with xor8 buf K.
Proof.
  intros Hcall Hbytes Hsc Htr Hfit.
  destruct (ctrTransform_spec AES_keyExpSize AES_ECB_encrypt ECB_length
              s W tr sc ctx buf len) as (sc1 & Hrun1 & _); [done..|].
  assert (Hcall0 : wf_call AES_keyExpSize ctx (replicate (length buf) 0) len).
  { destruct Hcall as (Hctx & Hsz & Hbuf). split; [done|]. split; [done|].
    by rewrite length_replicate. }
  destruct (ctrTransform_spec AES_keyExpSize AES_ECB_encrypt ECB_length
              s W tr sc ctx (replicate (length buf) 0) len) as (sc2 & Hrun2 & _);
    [done..|].
  eexists _, _, _, _, _. split; [exact Hrun1|]. split; [exact Hrun2|].
  apply list_eq. intros j. rewrite lookup_zip_with, !lookup_ctr_buffer.
  destruct (buf !! j) as [b|] eqn:Hb; [|done].
  rewrite lookup_replicate_2 by (by eapply lookup_lt_Some).
  cbn [fmap option_fmap option_map mbind option_bind]. f_equal.
  case_decide.
  - symmetry. apply xor8_of_zero.
  - symmetry. apply xor8_zero_r. exact (Forall_lookup_1 _ buf j b Hbytes Hb).
Qed.

(** Two iterations of the block loop on different blocks, in either
    order. *)
Lemma block_bodies_commute rk iv (b1 b2 : nat) buf :
  is_block iv -> b1 <> b2 ->
  (16 * b1 + 16 <= length buf)%nat -> 16 * Z.of_nat b1 + 16 < 2 ^ 64 ->
  (16 * b2 + 16 <= length buf)%nat -> 16 * Z.of_nat b2 + 16 < 2 ^ 64 ->
  (let* buf := block_body AES_ECB_encrypt rk iv (Z.of_nat b1) buf in
   block_body AES_ECB_encrypt rk iv (Z.of_nat b2) buf)
  = Ok (xor_where (fun j => (j / AES_BLOCKLEN)%nat = b1 \/ (j / AES_BLOCKLEN)%nat = b2)
          (keystream AES_ECB_encrypt rk iv) buf).
Proof.
  intros Hiv Hne Hl1 Hm1 Hl2 Hm2.
  rewrite (block_body_spec AES_ECB_encrypt ECB_length) by done. cbn [bind].
  rewrite (block_body_spec AES_ECB_encrypt ECB_length)
    by (done || by rewrite length_xor_where).
  f_equal. rewrite xor_where_compose by congruence.
  apply xor_where_ext; [tauto | done].
Qed.

(** X8. Iterations on different blocks commute: the body of the block
    loop of aes_openmp.c, aes_openmp_nowait.c and aes_openmp_shared_ctx.c,
    run on block [b1] and then on block [b2], leaves the buffer that the
    other order leaves, and touches no byte outside the two blocks. *)
Theorem block_iterations_commute rk iv (b1 b2 : nat) buf :
  is_block iv -> b1 <> b2 ->
  (16 * b1 + 16 <= length buf)%nat -> 16 * Z.of_nat b1 + 16 < 2 ^ 64 ->
  (16 * b2 + 16 <= length buf)%nat -> 16 * Z.of_nat b2 + 16 < 2 ^ 64 ->
  exists buf',
    (let* buf := block_body AES_ECB_encrypt rk iv (Z.of_nat b1) buf in
     block_body AES_ECB_encrypt rk iv (Z.of_nat b2) buf) = Ok buf' /\
    (let* buf := block_body AES_ECB_encrypt rk iv (Z.of_nat b2) buf in
     block_body AES_ECB_encrypt rk iv (Z.of_nat b1) buf) = Ok buf' /\
    length buf' = length buf /\
    forall j : nat, (j / 16)%nat <> b1 -> (j / 16)%nat <> b2 -> buf' !! j = buf !! j.
Proof.
  intros Hiv Hne Hl1 Hm1 Hl2 Hm2. eexists. split; [|split; [|split]].
  - by apply block_bodies_commute.
  - rewrite block_bodies_commute by done. f_equal.
    apply xor_where_ext; [tauto | done].
  - apply length_xor_where.
  - intros j Hj1 Hj2. rewrite lookup_xor_where.
    destruct (buf !! j) as [b|]; [|done]. cbn [fmap option_fmap option_map].
    rewrite decide_False; [done|]. unfold AES_BLOCKLEN. tauto.
Qed.

Lemma last_iteration_cons t t0 b0 (tr : list event) :
  last_iteration t ((t0, b0) :: tr)
  = match last_iteration t tr with
    | Some b => Some b
    | None => if decide (t0 = t) then Some b0 else None
    end.
Proof.
  unfold last_iteration, thread_iterations. rewrite filter_cons. cbn [fst].
  case_decide.
  - cbn [fmap list_fmap snd]. apply last_cons.
  - by destruct (last _).
Qed.

Lemma omp_for_false_sharing_rows rk iv (tr : list event) : forall sc buf sc' buf',
  wf_scratch sc -> Forall (fun e : event => (e.1 < MAX_THREADS)%nat) tr ->
  length iv = AES_BLOCKLEN ->
  omp_for tr (block_body_false_sharing AES_ECB_encrypt rk iv) (sc, buf)
    = Ok (sc', buf') ->
  forall t,
    thread_ivs sc' !! t
    = match last_iteration t tr with
      | Some b => Some (IncrementIvBy iv (Z.of_nat b))
      | None => thread_ivs sc !! t
      end /\
    thread_buffers sc' !! t
    = match last_iteration t tr with
      | Some b => Some (AES_ECB_encrypt rk (IncrementIvBy iv (Z.of_nat b)))
      | None => thread_buffers sc !! t
      end.
Proof.
  induction tr as [|[t0 b0] tr IH]; intros sc buf sc' buf' Hsc Htr Hiv Hrun t.
  - cbn in Hrun. by inversion Hrun; subst.
  - cbn [omp_for] in Hrun. apply Forall_cons in Htr as [Ht0 Htr]. cbn in Ht0.
    rewrite block_body_false_sharing_unfold in Hrun by done.
    destruct (block_body AES_ECB_encrypt rk iv (Z.of_nat b0) buf) as [buf1|f] eqn:Hb;
      [|done].
    cbn [bind] in Hrun.
    destruct (block_body_false_sharing_spec AES_ECB_encrypt ECB_length
                rk iv t0 (Z.of_nat b0) sc buf buf1) as (sc1 & Hsc1eq & Hsc1);
      [done..|].
    rewrite block_body_false_sharing_unfold, Hb in Hsc1eq by done.
    cbn [bind] in Hsc1eq. inversion Hsc1eq as [Hsc1def]. rewrite Hsc1def in Hrun.
    destruct (IH sc1 buf1 sc' buf' Hsc1 Htr Hiv Hrun t) as [IHiv IHbuf].
    rewrite IHiv, IHbuf, last_iteration_cons. subst sc1.
    cbn [thread_ivs thread_buffers].
    destruct Hsc as (Hlb & Hli & _).
    destruct (last_iteration t tr) as [b|]; [done|].
    case_decide as Heq.
    + subst t0. by rewrite !list_lookup_insert_eq by lia.
    + by rewrite !list_lookup_insert_ne by done.
Qed.

(** X9. The scratch arrays after a call of the false-sharing variant: the
    rows of a thread hold the counter and the keystream block of the last
    block the thread ran; the rows of a thread that ran no block are
    untouched. *)
Theorem false_sharing_rows W tr sc ctx buf len :
  wf_call AES_keyExpSize ctx buf len -> wf_scratch sc ->
  team_trace W (num_blocks_of len) tr -> (W <= MAX_THREADS)%nat ->
  exists sc' ctx' buf',
    AES_CTR_xcrypt_buffer_openmp_false_sharing AES_keyExpSize AES_ECB_encrypt
      tr sc ctx buf len = Ok (sc', ctx', buf') /\
    forall t,
      thread_ivs sc' !! t
      = match last_iteration t tr with
        | Some b => Some (IncrementIvBy (Iv ctx) (Z.of_nat b))
        | None => thread_ivs sc !! t
        end /\
      thread_buffers sc' !! t
      = match last_iteration t tr with
        | Some b =>
            Some (AES_ECB_encrypt (RoundKey ctx) (IncrementIvBy (Iv ctx) (Z.of_nat b)))
        | None => thread_buffers sc !! t
        end.
Proof.
  intros Hcall Hsc Htr HW.
  pose proof Hcall as (Hctx & _). pose proof Hctx as [[Hivlen _] Hrk].
  assert (Hthreads : Forall (fun e : event => (e.1 < MAX_THREADS)%nat) tr).
  { eapply Forall_impl; [by eapply team_trace_threads|].
    intros e He. cbn beta in *. lia. }
  unfold AES_CTR_xcrypt_buffer_openmp_false_sharing.
  rewrite memcpy_all by (done || apply local_array_length). cbn [bind].
  rewrite copy_RoundKey_spec by done. cbn [bind].
  destruct (omp_for_false_sharing_spec AES_ECB_encrypt ECB_length
              (RoundKey ctx) (Iv ctx) tr sc buf
              (ctr_buffer AES_ECB_encrypt ctx buf (16 * (len / 16))))
    as (sc' & Hloop & Hsc');
    [done|done|done|by eapply (blocks_done_spec AES_keyExpSize)|].
  pose proof (omp_for_false_sharing_rows (RoundKey ctx) (Iv ctx) tr sc buf sc' _
                Hsc Hthreads Hivlen Hloop) as Hrows.
  rewrite Hloop. cbn [bind]. rewrite memcpy_all by done. cbn [bind].
  rewrite copy_RoundKey_spec by done. cbn [bind RoundKey].
  destruct (finish_cases AES_keyExpSize AES_ECB_encrypt ECB_length ctx buf len Hcall)
    as [Hrem Hnone].
  case_decide as Hm.
  - rewrite (Hrem Hm). cbn [bind]. eexists _, _, _. split; [reflexivity|done].
  - eexists _, _, _. split; [reflexivity|done].
Qed.

(** X10. In the false-sharing variant, iterations of different threads on
    different blocks commute: either order leaves the same scratch arrays
    and the same buffer. *)
Theorem false_sharing_iterations_commute rk iv (t1 t2 b1 b2 : nat) sc buf :
  wf_scratch sc -> is_block iv ->
  (t1 < MAX_THREADS)%nat -> (t2 < MAX_THREADS)%nat -> t1 <> t2 -> b1 <> b2 ->
  (16 * b1 + 16 <= length buf)%nat -> 16 * Z.of_nat b1 + 16 < 2 ^ 64 ->
  (16 * b2 + 16 <= length buf)%nat -> 16 * Z.of_nat b2 + 16 < 2 ^ 64 ->
  exists st',
    (let* st := block_body_false_sharing AES_ECB_encrypt rk iv t1 (Z.of_nat b1) (sc, buf) in
     block_body_false_sharing AES_ECB_encrypt rk iv t2 (Z.of_nat b2) st) = Ok st' /\
    (let* st := block_body_false_sharing AES_ECB_encrypt rk iv t2 (Z.of_nat b2) (sc, buf) in
     block_body_false_sharing AES_ECB_encrypt rk iv t1 (Z.of_nat b1) st) = Ok st'.
Proof.
  intros Hsc Hiv Ht1 Ht2 Hnet Hneb Hl1 Hm1 Hl2 Hm2. pose proof Hiv as [Hivlen _].
  pose proof (block_body_spec AES_ECB_encrypt ECB_length rk iv b1 buf Hiv Hl1 Hm1) as H1.
  pose proof (block_body_spec AES_ECB_encrypt ECB_length rk iv b2 buf Hiv Hl2 Hm2) as H2.
  destruct (block_body_false_sharing_spec AES_ECB_encrypt ECB_length
              rk iv t1 (Z.of_nat b1) sc buf _ Hsc Ht1 Hivlen H1) as (sc1 & E1 & Hsc1).
  destruct (block_body_false_sharing_spec AES_ECB_encrypt ECB_length
              rk iv t2 (Z.of_nat b2) sc buf _ Hsc Ht2 Hivlen H2) as (sc2 & E2 & Hsc2).
  pose proof E1 as E1'. pose proof E2 as E2'.
  rewrite block_body_false_sharing_unfold, H1 in E1' by done.
  rewrite block_body_false_sharing_unfold, H2 in E2' by done.
  cbn [bind] in E1', E2'. inversion E1' as [D1]. inversion E2' as [D2].
  rewrite E1, E2. cbn [bind].
  rewrite !block_body_false_sharing_unfold by done.
  rewrite !(block_body_spec AES_ECB_encrypt ECB_length)
    by (done || by rewrite length_xor_where).
  cbn [bind]. eexists. split; [reflexivity|]. subst sc1 sc2.
  cbn [thread_buffers thread_ivs]. f_equal. f_equal.
  - f_equal; by apply list_insert_insert_ne.
  - rewrite !xor_where_compose by congruence.
    apply xor_where_ext; [tauto | done].
Qed.

End MoreCTRFacts.

(** *** The harness *)

Section HarnessFacts.

Variable AES_keyExpSize : nat.
Variable AES_ECB_encrypt : list Z -> list Z -> list Z.
Variable AES_init_ctx_iv : list Z -> list Z -> AES_ctx.
Variable sequential_xcrypt : AES_ctx -> list Z -> Z -> result (AES_ctx * list Z).

Hypothesis ECB_length : forall rk blk,
  length blk = AES_BLOCKLEN -> length (AES_ECB_encrypt rk blk) = AES_BLOCKLEN.

Lemma xor8_byte a b : is_byte (xor8 a b).
Proof. unfold is_byte, xor8, u8. apply Z.mod_pos_bound. lia. Qed.

Lemma ctr_buffer_bytes ctx buf len :
  Forall is_byte buf -> Forall is_byte (ctr_buffer AES_ECB_encrypt ctx buf len).
Proof.
  intros Hb. apply Forall_lookup. intros j x Hx.
  rewrite lookup_ctr_buffer in Hx.
  destruct (buf !! j) as [b|] eqn:Hj; [|done].
  cbn [fmap option_fmap option_map] in Hx. inversion Hx; subst.
  case_decide; [apply xor8_byte | exact (Forall_lookup_1 _ buf j b Hb Hj)].
Qed.

Lemma ctr_buffer_twice ctx buf len :
  Forall is_byte buf ->
  ctr_buffer AES_ECB_encrypt ctx (ctr_buffer AES_ECB_encrypt ctx buf len) len = buf.
Proof.
  intros Hb. unfold ctr_buffer. apply xor_where_involutive.
  intros j b _ Hj. exact (Forall_lookup_1 _ buf j b Hb Hj).
Qed.

Lemma wf_call_ctr_buffer ctx buf len :
  wf_call AES_keyExpSize ctx buf len ->
  wf_call AES_keyExpSize ctx (ctr_buffer AES_ECB_encrypt ctx buf len) len.
Proof.
  intros (Hctx & Hsz & Hbuf). split; [done|]. split; [done|].
  unfold ctr_buffer. by rewrite length_xor_where.
Qed.

Lemma timed_loop_spec s W n trace_of key iv size sc data :
  wf_call AES_keyExpSize (AES_init_ctx_iv key iv) data size ->
  Forall is_byte data -> wf_scratch sc ->
  (forall i, team_trace W (num_blocks_of size) (trace_of i)) -> team_fits s W ->
  exists sc',
    timed_loop AES_keyExpSize AES_ECB_encrypt AES_init_ctx_iv
      s n trace_of key iv size (sc, data)
    = Ok (sc', if Nat.even n then data
               else ctr_buffer AES_ECB_encrypt (AES_init_ctx_iv key iv) data size)
    /\ wf_scratch sc'.
Proof.
  intros Hcall Hbytes Hsc Htr Hfit. unfold timed_loop.
  set (ctx := AES_init_ctx_iv key iv) in *.
  edestruct (for_range_inv
    (fun i '(sc, data) =>
       let* (sc, _, data) :=
         ctrTransform AES_keyExpSize AES_ECB_encrypt s (trace_of i) sc ctx data size in
       Ok (sc, data))
    n
    (fun k '(sc', d) =>
       wf_scratch sc' /\
       d = if Nat.even k then data else ctr_buffer AES_ECB_encrypt ctx data size)
    0 (sc, data)) as ([sc' d] & Hrun & Hsc' & ->).
  - done.
  - intros k [sc1 d] Hk [Hsc1 ->]. rewrite Nat.even_succ, <- Nat.negb_even.
    destruct (Nat.even k); cbn [negb].
    + destruct (ctrTransform_spec AES_keyExpSize AES_ECB_encrypt ECB_length
                  s W (trace_of (0 + Z.of_nat k)) sc1 ctx data size)
        as (sc2 & -> & Hsc2); [done..|].
      cbn [bind]. by eexists (_, _).
    + destruct (ctrTransform_spec AES_keyExpSize AES_ECB_encrypt ECB_length
                  s W (trace_of (0 + Z.of_nat k)) sc1 ctx
                  (ctr_buffer AES_ECB_encrypt ctx data size) size)
        as (sc2 & -> & Hsc2); [by apply wf_call_ctr_buffer|done..|].
      cbn [bind]. eexists (_, _). split; [reflexivity|]. split; [done|].
      by apply ctr_buffer_twice.
  - by exists sc'.
Qed.

Lemma bench_variant_spec s n trace_of key iv size (counts : list nat) :
  forall sc data,
  wf_call AES_keyExpSize (AES_init_ctx_iv key iv) data size ->
  Forall is_byte data -> wf_scratch sc ->
  (forall W, W ∈ counts ->
     team_fits s W /\ forall i, team_trace W (num_blocks_of size) (trace_of W i)) ->
  exists sc',
    bench_variant AES_keyExpSize AES_ECB_encrypt AES_init_ctx_iv
      s counts n trace_of key iv size (sc, data)
    = Ok (sc', if Nat.even (length counts * n) then data
               else ctr_buffer AES_ECB_encrypt (AES_init_ctx_iv key iv) data size)
    /\ wf_scratch sc'.
Proof.
  induction counts as [|W counts IH]; intros sc data Hcall Hbytes Hsc Htr.
  - exists sc. done.
  - cbn [bench_variant length]. destruct (Htr W ltac:(left)) as [Hfit HtrW].
    destruct (timed_loop_spec s W n (trace_of W) key iv size sc data)
      as (sc1 & -> & Hsc1); [done..|].
    cbn [bind].
    assert (Htr' : forall W', W' ∈ counts ->
              team_fits s W' /\
              forall i, team_trace W' (num_blocks_of size) (trace_of W' i))
      by (intros W' HW'; apply Htr; by right).
    replace (S (length counts) * n)%nat with (n + length counts * n)%nat by lia.
    rewrite Nat.even_add.
    destruct (Nat.even n).
    + destruct (IH sc1 data Hcall Hbytes Hsc1 Htr') as (sc' & -> & Hsc').
      exists sc'. split; [|done]. by destruct (Nat.even (length counts * n)).
    + destruct (IH sc1 (ctr_buffer AES_ECB_encrypt (AES_init_ctx_iv key iv) data size))
        as (sc' & -> & Hsc');
        [by apply wf_call_ctr_buffer | by apply ctr_buffer_bytes | done | done |].
      exists sc'. split; [|done].
      destruct (Nat.even (length counts * n)); cbn [Bool.eqb]; [done|].
      by rewrite ctr_buffer_twice.
Qed.

Lemma tested_counts_prefix max_threads (counts : list nat) :
  exists rest,
    counts = tested_counts max_threads counts ++ rest /\
    Forall (fun W => (W <= max_threads)%nat) (tested_counts max_threads counts) /\
    match rest with
    | [] => True
    | W :: _ => (max_threads < W)%nat
    end.
Proof.
  induction counts as [|W counts (rest & Heq & Hall & Hrest)].
  - by exists [].
  - cbn [tested_counts]. case_decide as HW.
    + exists (W :: counts). done.
    + exists rest. split; [cbn; by f_equal|]. split; [|done].
      constructor; [lia | done].
Qed.

Lemma tested_counts_elem max_threads (counts : list nat) W :
  W ∈ tested_counts max_threads counts -> W ∈ counts /\ (W <= max_threads)%nat.
Proof.
  destruct (tested_counts_prefix max_threads counts) as (rest & Heq & Hall & _).
  intros HW. split.
  - rewrite Heq. apply elem_of_app. by left.
  - rewrite Forall_forall in Hall. by apply Hall.
Qed.

Lemma int_wrap_small x : - 2 ^ 31 <= x < 2 ^ 31 -> int_wrap x = x.
Proof. intros Hx. unfold int_wrap. rewrite Z.mod_small by lia. lia. Qed.

Lemma compare_loop_spec (n : nat) (a b : list Z) :
  length a = n -> length b = n -> Z.of_nat n < 2 ^ 31 ->
  exists e,
    for_range n 0
      (fun i errors =>
         let* x := load ArrayOutOfBounds a i in
         let* y := load ArrayOutOfBounds b i in
         Ok (if decide (x <> y) then int_wrap (errors + 1) else errors))
      0 = Ok e /\
    0 <= e <= Z.of_nat n /\ (e = 0 <-> a = b).
Proof.
  intros Ha Hb Hn.
  edestruct (for_range_inv
    (fun i errors =>
       let* x := load ArrayOutOfBounds a i in
       let* y := load ArrayOutOfBounds b i in
       Ok (if decide (x <> y) then int_wrap (errors + 1) else errors))
    n
    (fun k e => 0 <= e <= Z.of_nat k /\ (e = 0 <-> take k a = take k b))
    0 0) as (e & Hrun & Hbound & Hiff).
  - split; [lia|]. by rewrite !take_0.
  - intros k e Hk [Hbound Hiff].
    destruct (lookup_lt_is_Some_2 a k ltac:(lia)) as [x Hx].
    destruct (lookup_lt_is_Some_2 b k ltac:(lia)) as [y Hy].
    unfold load. rewrite Z.add_0_l, Nat2Z.id, Hx, Hy. cbn [bind].
    rewrite (take_S_r a k x Hx), (take_S_r b k y Hy).
    eexists. split; [reflexivity|]. case_decide as Hxy.
    + rewrite int_wrap_small by lia. split; [lia|]. split; [lia|].
      intros Heq. by apply app_inj_tail in Heq as [_ ?].
    + subst y. split; [lia|]. rewrite Hiff. split.
      * by intros ->.
      * intros Heq. by apply app_inj_tail in Heq as [? _].
  - exists e. split; [exact Hrun|]. split; [done|].
    by rewrite !take_ge in Hiff by lia.
Qed.

Lemma test_size_value : test_size = 1048576.
Proof. reflexivity. Qed.

Lemma count_errors_spec (a b : list Z) :
  length a = Z.to_nat test_size -> length b = Z.to_nat test_size ->
  exists e, count_errors a b = Ok e /\ 0 <= e <= test_size /\ (e = 0 <-> a = b).
Proof.
  intros Ha Hb. unfold count_errors.
  destruct (compare_loop_spec (Z.to_nat test_size) a b Ha Hb) as (e & Hrun & Hbound & Hiff).
  - rewrite test_size_value. lia.
  - exists e. split; [exact Hrun|]. split; [|done]. rewrite test_size_value in *. lia.
Qed.

(** X11. The loop of benchmark_size over the worker counts of a variant
    transforms the buffer in place once per pass, an odd number of passes
    (3 or 5) per worker count: afterwards the buffer is the original data
    when an even number of worker counts was run, and the data encrypted
    once otherwise. *)
Theorem benchmark_variant_toggles_data
    s max_threads size_mb trace_of key iv size sc data W0 tr0 :
  wf_call AES_keyExpSize (AES_init_ctx_iv key iv) data size ->
  Forall is_byte data -> wf_scratch sc ->
  (forall W i, W ∈ tested_counts max_threads thread_counts ->
     team_trace W (num_blocks_of size) (trace_of W i)) ->
  team_trace W0 (num_blocks_of size) tr0 -> team_fits s W0 ->
  exists sc' sc1 ctx1 once,
    ctrTransform AES_keyExpSize AES_ECB_encrypt s tr0 sc
      (AES_init_ctx_iv key iv) data size = Ok (sc1, ctx1, once) /\
    bench_variant AES_keyExpSize AES_ECB_encrypt AES_init_ctx_iv
      s (tested_counts max_threads thread_counts) (bench_iterations size_mb)
      trace_of key iv size (sc, data)
    = Ok (sc', if Nat.even (length (tested_counts max_threads thread_counts))
               then data else once).
Proof.
  intros Hcall Hbytes Hsc Htr Htr0 Hfit0.
  destruct (ctrTransform_spec AES_keyExpSize AES_ECB_encrypt ECB_length
              s W0 tr0 sc (AES_init_ctx_iv key iv) data size) as (sc1 & Hone & _);
    [done..|].
  destruct (bench_variant_spec s (bench_iterations size_mb) trace_of key iv size
              (tested_counts max_threads thread_counts) sc data)
    as (sc' & Hrun & _); [done..| |].
  { intros W HW. split; [|by intros i; apply Htr].
    apply thread_counts_fit. by eapply tested_counts_elem. }
  eexists sc', _, _, _. split; [exact Hone|]. rewrite Hrun. do 2 f_equal.
  rewrite Nat.even_mul. unfold bench_iterations.
  case_decide; cbn [Nat.even]; by rewrite orb_false_r.
Qed.

(** X12. The worker counts that benchmark_size runs are a prefix of
    {1, 2, 4, 8, 16}: each is at least 1, at most [max_threads] and at most
    [MAX_THREADS]; the loop stops at the first count above [max_threads]. *)
Theorem tested_counts_of_benchmark max_threads :
  exists rest,
    thread_counts = tested_counts max_threads thread_counts ++ rest /\
    Forall (fun W => (1 <= W <= max_threads)%nat /\ (W <= MAX_THREADS)%nat)
           (tested_counts max_threads thread_counts) /\
    match rest with
    | [] => True
    | W :: _ => (max_threads < W)%nat
    end.
Proof.
  destruct (tested_counts_prefix max_threads thread_counts) as (rest & Heq & Hall & Hrest).
  exists rest. split; [done|]. split; [|done].
  apply Forall_forall. intros W HW.
  destruct (tested_counts_elem max_threads thread_counts W HW) as [Hin Hle].
  unfold thread_counts in Hin. unfold MAX_THREADS.
  repeat (apply elem_of_cons in Hin as [->|Hin]; [lia|]).
  by apply elem_of_nil in Hin.
Qed.

(** X13. The sizes of the harness are whole blocks: for every [size_mb],
    also when [size_mb * 1024 * 1024] wraps as a [size_t], the size of
    benchmark_size is a multiple of 16, and so is [test_size]; no call of
    the harness has a tail. *)
Theorem harness_sizes_are_whole_blocks size_mb :
  is_size_t (bench_size size_mb) /\
  bench_size size_mb mod 16 = 0 /\
  bench_size size_mb = (size_mb * 1048576) mod 2 ^ 64 /\
  test_size mod 16 = 0.
Proof.
  unfold bench_size, size_t, is_size_t, SIZE_BITS.
  change (2 ^ 64) with 18446744073709551616.
  split; [apply Z.mod_pos_bound; lia|]. split; [|split; [|reflexivity]].
  - Z.div_mod_to_equations. lia.
  - rewrite Z.mul_mod_idemp_l by lia. f_equal. lia.
Qed.

(** X14. test_correctness: whatever the sequential transform returns, the
    three mismatch counts are one and the same number, between 0 and
    [test_size]; it is 0, and the test returns 0, exactly when the
    sequential output is the output of the parallel transform. *)
Theorem test_correctness_report
    W1 tr_par W2 tr_shared W3 tr_fs sc key iv data ctx_seq data_seq :
  wf_ctx AES_keyExpSize (AES_init_ctx_iv key iv) ->
  length data = Z.to_nat test_size -> wf_scratch sc ->
  sequential_xcrypt (AES_init_ctx_iv key iv) data test_size = Ok (ctx_seq, data_seq) ->
  length data_seq = length data ->
  team_trace W1 (num_blocks_of test_size) tr_par ->
  team_trace W2 (num_blocks_of test_size) tr_shared ->
  team_trace W3 (num_blocks_of test_size) tr_fs -> (W3 <= MAX_THREADS)%nat ->
  exists sc' e ctx_par data_par,
    test_correctness AES_keyExpSize AES_ECB_encrypt AES_init_ctx_iv sequential_xcrypt
      tr_par tr_shared tr_fs sc key iv data
    = Ok (sc', mkReport (if decide (e = 0) then 0 else 1) e e e) /\
    AES_CTR_xcrypt_buffer_openmp AES_keyExpSize AES_ECB_encrypt
      tr_par (AES_init_ctx_iv key iv) data test_size = Ok (ctx_par, data_par) /\
    0 <= e <= test_size /\
    (e = 0 <-> data_seq = data_par).
Proof.
  intros Hctx Hlen Hsc Hseq Hlenseq Htr1 Htr2 Htr3 HW3.
  set (ctx := AES_init_ctx_iv key iv) in *.
  assert (Hcall : wf_call AES_keyExpSize ctx data test_size).
  { split; [done|]. rewrite Hlen, test_size_value.
    unfold is_size_t, SIZE_BITS. lia. }
  pose proof (openmp_spec AES_keyExpSize AES_ECB_encrypt ECB_length
                W1 tr_par ctx data test_size Hcall Htr1) as Hpar.
  pose proof (shared_ctx_spec AES_keyExpSize AES_ECB_encrypt ECB_length
                W2 tr_shared ctx data test_size Hcall Htr2) as Hshared.
  destruct (false_sharing_spec AES_keyExpSize AES_ECB_encrypt ECB_length
              W3 tr_fs sc ctx data test_size Hcall Htr3 Hsc HW3) as (sc' & Hfs & _).
  destruct (count_errors_spec data_seq (ctr_buffer AES_ECB_encrypt ctx data test_size))
    as (e & He & Hbound & Hiff).
  { by rewrite Hlenseq. }
  { unfold ctr_buffer. by rewrite length_xor_where. }
  exists sc', e, (ctr_context ctx test_size), (ctr_buffer AES_ECB_encrypt ctx data test_size).
  split; [|done].
  unfold test_correctness. fold ctx.
  rewrite Hseq. cbn [bind]. rewrite Hpar. cbn [bind].
  rewrite Hshared. cbn [bind]. rewrite Hfs. cbn [bind].
  rewrite He. cbn [bind]. cbn zeta. do 3 f_equal.
  destruct (decide (e = 0)) as [->|Hne]; [done|].
  by rewrite (decide_False (P := 0 <> 0)) by (intros ?; done).
Qed.

End HarnessFacts.

(** *** The further properties at concrete inputs *)

(** The counter is all ones and the two amounts add up to [2^64 + 1]. *)
Lemma IncrementIvBy_twice_witness :
  is_block (replicate 16 255) /\ is_size_t (2 ^ 64 - 1) /\ is_size_t 2 /\
  IncrementIvBy (IncrementIvBy (replicate 16 255) (2 ^ 64 - 1)) 2
    = be_encode AES_BLOCKLEN
        ((be_decode (replicate 16 255) + (2 ^ 64 - 1 + 2)) mod 2 ^ 128) /\
  IncrementIvBy (IncrementIvBy (replicate 16 255) (2 ^ 64 - 1)) 2
    = IncrementIvBy (IncrementIvBy (replicate 16 255) 2) (2 ^ 64 - 1).
Proof.
  assert (H1 : is_block (replicate 16 255)) by by_computation.
  assert (H2 : is_size_t (2 ^ 64 - 1)) by by_computation.
  assert (H3 : is_size_t 2) by by_computation.
  split; [exact H1|]. split; [exact H2|]. split; [exact H3|].
  exact (IncrementIvBy_twice (replicate 16 255) (2 ^ 64 - 1) 2 H1 H2 H3).
Defined.

Lemma IncrementIvBy_injective_witness :
  is_block (Iv demo_ctx) /\ is_size_t 5 /\ is_size_t (2 + 3) /\
  IncrementIvBy (Iv demo_ctx) 5 = IncrementIvBy (Iv demo_ctx) (2 + 3) /\
  5 = 2 + 3.
Proof.
  assert (H1 : is_block (Iv demo_ctx)) by by_computation.
  assert (H2 : is_size_t 5) by by_computation.
  assert (H3 : is_size_t (2 + 3)) by by_computation.
  assert (H4 : IncrementIvBy (Iv demo_ctx) 5 = IncrementIvBy (Iv demo_ctx) (2 + 3))
    by reflexivity.
  split; [exact H1|]. split; [exact H2|]. split; [exact H3|]. split; [exact H4|].
  exact (IncrementIvBy_injective (Iv demo_ctx) 5 (2 + 3) H1 H2 H3 H4).
Defined.

(** The counter ends in [fe ff]: adding 256 fills the last two bytes and
    leaves the first fourteen. *)
Lemma IncrementIvBy_high_bytes_kept_witness :
  is_block (Iv demo_ctx) /\ is_size_t 256 /\ (2 <= AES_BLOCKLEN)%nat /\
  be_decode (drop (AES_BLOCKLEN - 2) (Iv demo_ctx)) + 256 < 256 ^ Z.of_nat 2 /\
  take (AES_BLOCKLEN - 2) (IncrementIvBy (Iv demo_ctx) 256)
    = take (AES_BLOCKLEN - 2) (Iv demo_ctx) /\
  drop (AES_BLOCKLEN - 2) (IncrementIvBy (Iv demo_ctx) 256)
    = be_encode 2 (be_decode (drop (AES_BLOCKLEN - 2) (Iv demo_ctx)) + 256).
Proof.
  assert (H1 : is_block (Iv demo_ctx)) by by_computation.
  assert (H2 : is_size_t 256) by by_computation.
  assert (H3 : (2 <= AES_BLOCKLEN)%nat) by by_computation.
  assert (H4 : be_decode (drop (AES_BLOCKLEN - 2) (Iv demo_ctx)) + 256 < 256 ^ Z.of_nat 2)
    by by_computation.
  split; [exact H1|]. split; [exact H2|]. split; [exact H3|]. split; [exact H4|].
  exact (IncrementIvBy_high_bytes_kept (Iv demo_ctx) 256 2 H1 H2 H3 H4).
Defined.

(** A call on 37 bytes, then a call on 20 bytes with the returned context. *)
Lemma second_call_keystream_witness :
  wf_call demo_keyExpSize demo_ctx demo_buf 37 /\ wf_scratch demo_scratch /\
  team_trace 2 (num_blocks_of 37) demo_trace /\ team_fits openmp_false_sharing 2 /\
  is_size_t 20 /\ 20 <= Z.of_nat (length demo_buf) /\
  team_trace 3 (num_blocks_of 20) [(2, 0)%nat] /\ team_fits openmp_false_sharing 3 /\
  exists sc1 ctx1 b1' sc2 ctx2 b2',
    ctrTransform demo_keyExpSize demo_cipher openmp_false_sharing
      demo_trace demo_scratch demo_ctx demo_buf 37 = Ok (sc1, ctx1, b1') /\
    ctrTransform demo_keyExpSize demo_cipher openmp_false_sharing
      [(2, 0)%nat] sc1 ctx1 demo_buf 20 = Ok (sc2, ctx2, b2') /\
    (forall (j : nat) b, Z.of_nat j < 20 -> demo_buf !! j = Some b ->
       b2' !! j =
         Some (xor8 b (nth (j mod 16)%nat
                         (demo_cipher (RoundKey demo_ctx)
                            (counter_add (Iv demo_ctx)
                               ((37 + 15) / 16 + Z.of_nat (j / 16))))
                         0))) /\
    (forall j : nat, 20 <= Z.of_nat j -> b2' !! j = demo_buf !! j) /\
    Iv ctx2 = counter_add (Iv demo_ctx) ((37 + 15) / 16 + (20 + 15) / 16).
Proof.
  assert (H1 : wf_call demo_keyExpSize demo_ctx demo_buf 37) by by_computation.
  assert (H2 : wf_scratch demo_scratch) by by_computation.
  assert (H3 : team_trace 2 (num_blocks_of 37) demo_trace) by by_computation.
  assert (H4 : team_fits openmp_false_sharing 2) by by_computation.
  assert (H5 : is_size_t 20) by by_computation.
  assert (H6 : 20 <= Z.of_nat (length demo_buf)) by by_computation.
  assert (H7 : team_trace 3 (num_blocks_of 20) [(2, 0)%nat]) by by_computation.
  assert (H8 : team_fits openmp_false_sharing 3) by by_computation.
  split; [exact H1|]. split; [exact H2|]. split; [exact H3|]. split; [exact H4|].
  split; [exact H5|]. split; [exact H6|]. split; [exact H7|]. split; [exact H8|].
  exact (second_call_keystream demo_keyExpSize demo_cipher demo_cipher_length
           openmp_false_sharing 2 demo_trace 3 [(2, 0)%nat] demo_scratch demo_ctx
           demo_buf 37 demo_buf 20 H1 H2 H3 H4 H5 H6 H7 H8).
Defined.

(** Two whole blocks, then the five bytes of the tail, against one call on
    37 bytes. *)
Lemma chunked_calls_compose_witness :
  wf_ctx demo_keyExpSize demo_ctx /\ wf_scratch demo_scratch /\
  Z.of_nat (length (take 32 demo_buf)) mod 16 = 0 /\
  0 <= 5 <= Z.of_nat (length (drop 32 demo_buf)) /\
  is_size_t (Z.of_nat (length (take 32 demo_buf)) + 5) /\
  team_trace 2 (num_blocks_of (Z.of_nat (length (take 32 demo_buf)))) demo_trace /\
  team_fits openmp_nowait 2 /\
  team_trace 1 (num_blocks_of 5) [] /\ team_fits openmp_nowait 1 /\
  team_trace 4 (num_blocks_of (Z.of_nat (length (take 32 demo_buf)) + 5))
    [(3, 0); (0, 1)]%nat /\
  team_fits openmp_nowait 4 /\
  exists sc1 ctx1 b1' sc2 ctx2 b2' sc3,
    ctrTransform demo_keyExpSize demo_cipher openmp_nowait demo_trace demo_scratch
      demo_ctx (take 32 demo_buf) (Z.of_nat (length (take 32 demo_buf)))
      = Ok (sc1, ctx1, b1') /\
    ctrTransform demo_keyExpSize demo_cipher openmp_nowait [] sc1 ctx1
      (drop 32 demo_buf) 5 = Ok (sc2, ctx2, b2') /\
    ctrTransform demo_keyExpSize demo_cipher openmp_nowait [(3, 0); (0, 1)]%nat
      demo_scratch demo_ctx (take 32 demo_buf ++ drop 32 demo_buf)
      (Z.of_nat (length (take 32 demo_buf)) + 5) = Ok (sc3, ctx2, b1' ++ b2').
Proof.
  assert (H1 : wf_ctx demo_keyExpSize demo_ctx) by by_computation.
  assert (H2 : wf_scratch demo_scratch) by by_computation.
  assert (H3 : Z.of_nat (length (take 32 demo_buf)) mod 16 = 0) by by_computation.
  assert (H4 : 0 <= 5 <= Z.of_nat (length (drop 32 demo_buf))) by by_computation.
  assert (H5 : is_size_t (Z.of_nat (length (take 32 demo_buf)) + 5)) by by_computation.
  assert (H6 : team_trace 2 (num_blocks_of (Z.of_nat (length (take 32 demo_buf))))
                 demo_trace) by by_computation.
  assert (H7 : team_fits openmp_nowait 2) by by_computation.
  assert (H8 : team_trace 1 (num_blocks_of 5) []) by by_computation.
  assert (H9 : team_fits openmp_nowait 1) by by_computation.
  assert (H10 : team_trace 4 (num_blocks_of (Z.of_nat (length (take 32 demo_buf)) + 5))
                  [(3, 0); (0, 1)]%nat) by by_computation.
  assert (H11 : team_fits openmp_nowait 4) by by_computation.
  split; [exact H1|]. split; [exact H2|]. split; [exact H3|]. split; [exact H4|].
  split; [exact H5|]. split; [exact H6|]. split; [exact H7|]. split; [exact H8|].
  split; [exact H9|]. split; [exact H10|]. split; [exact H11|].
  exact (chunked_calls_compose demo_keyExpSize demo_cipher demo_cipher_length
           openmp_nowait 2 demo_trace 1 [] 4 [(3, 0); (0, 1)]%nat demo_scratch
           demo_ctx (take 32 demo_buf) (drop 32 demo_buf) 5
           H1 H2 H3 H4 H5 H6 H7 H8 H9 H10 H11).
Defined.

Lemma zero_length_is_identity_witness :
  wf_ctx demo_keyExpSize demo_ctx /\ team_trace 2 (num_blocks_of 0) [] /\
  ctrTransform demo_keyExpSize demo_cipher openmp_false_sharing [] demo_scratch
    demo_ctx demo_buf 0 = Ok (demo_scratch, demo_ctx, demo_buf).
Proof.
  assert (H1 : wf_ctx demo_keyExpSize demo_ctx) by by_computation.
  assert (H2 : team_trace 2 (num_blocks_of 0) []) by by_computation.
  split; [exact H1|]. split; [exact H2|].
  exact (zero_length_is_identity demo_keyExpSize demo_cipher
           openmp_false_sharing 2 [] demo_scratch demo_ctx demo_buf H1 H2).
Defined.

Lemma keystream_is_data_independent_witness :
  wf_call demo_keyExpSize demo_ctx demo_buf 37 /\ Forall is_byte demo_buf /\
  wf_scratch demo_scratch /\
  team_trace 2 (num_blocks_of 37) demo_trace /\ team_fits openmp_shared_ctx 2 /\
  exists sc1 ctx' buf' sc2 K,
    ctrTransform demo_keyExpSize demo_cipher openmp_shared_ctx demo_trace
      demo_scratch demo_ctx demo_buf 37 = Ok (sc1, ctx', buf') /\
    ctrTransform demo_keyExpSize demo_cipher openmp_shared_ctx demo_trace
      demo_scratch demo_ctx (replicate (length demo_buf) 0) 37 = Ok (sc2, ctx', K) /\
    buf' = zip_with xor8 demo_buf K.
Proof.
  assert (H1 : wf_call demo_keyExpSize demo_ctx demo_buf 37) by by_computation.
  assert (H2 : Forall is_byte demo_buf) by by_computation.
  assert (H3 : wf_scratch demo_scratch) by by_computation.
  assert (H4 : team_trace 2 (num_blocks_of 37) demo_trace) by by_computation.
  assert (H5 : team_fits openmp_shared_ctx 2) by by_computation.
  split; [exact H1|]. split; [exact H2|]. split; [exact H3|]. split; [exact H4|].
  split; [exact H5|].
  exact (keystream_is_data_independent demo_keyExpSize demo_cipher demo_cipher_length
           openmp_shared_ctx 2 demo_trace demo_scratch demo_ctx demo_buf 37
           H1 H2 H3 H4 H5).
Defined.

Lemma block_iterations_commute_witness :
  is_block (Iv demo_ctx) /\ 1%nat <> 0%nat /\
  (16 * 1 + 16 <= length demo_buf)%nat /\ 16 * Z.of_nat 1 + 16 < 2 ^ 64 /\
  (16 * 0 + 16 <= length demo_buf)%nat /\ 16 * Z.of_nat 0 + 16 < 2 ^ 64 /\
  exists buf',
    (let* buf := block_body demo_cipher (RoundKey demo_ctx) (Iv demo_ctx)
                   (Z.of_nat 1) demo_buf in
     block_body demo_cipher (RoundKey demo_ctx) (Iv demo_ctx) (Z.of_nat 0) buf)
    = Ok buf' /\
    (let* buf := block_body demo_cipher (RoundKey demo_ctx) (Iv demo_ctx)
                   (Z.of_nat 0) demo_buf in
     block_body demo_cipher (RoundKey demo_ctx) (Iv demo_ctx) (Z.of_nat 1) buf)
    = Ok buf' /\
    length buf' = length demo_buf /\
    forall j : nat, (j / 16)%nat <> 1%nat -> (j / 16)%nat <> 0%nat ->
      buf' !! j = demo_buf !! j.
Proof.
  assert (H1 : is_block (Iv demo_ctx)) by by_computation.
  assert (H2 : 1%nat <> 0%nat) by by_computation.
  assert (H3 : (16 * 1 + 16 <= length demo_buf)%nat) by by_computation.
  assert (H4 : 16 * Z.of_nat 1 + 16 < 2 ^ 64) by by_computation.
  assert (H5 : (16 * 0 + 16 <= length demo_buf)%nat) by by_computation.
  assert (H6 : 16 * Z.of_nat 0 + 16 < 2 ^ 64) by by_computation.
  split; [exact H1|]. split; [exact H2|]. split; [exact H3|]. split; [exact H4|].
  split; [exact H5|]. split; [exact H6|].
  exact (block_iterations_commute demo_cipher demo_cipher_length
           (RoundKey demo_ctx) (Iv demo_ctx) 1 0 demo_buf H1 H2 H3 H4 H5 H6).
Defined.

Lemma false_sharing_rows_witness :
  wf_call demo_keyExpSize demo_ctx demo_buf 37 /\ wf_scratch demo_scratch /\
  team_trace 2 (num_blocks_of 37) demo_trace /\ (2 <= MAX_THREADS)%nat /\
  exists sc' ctx' buf',
    AES_CTR_xcrypt_buffer_openmp_false_sharing demo_keyExpSize demo_cipher
      demo_trace demo_scratch demo_ctx demo_buf 37 = Ok (sc', ctx', buf') /\
    forall t,
      thread_ivs sc' !! t
      = match last_iteration t demo_trace with
        | Some b => Some (IncrementIvBy (Iv demo_ctx) (Z.of_nat b))
        | None => thread_ivs demo_scratch !! t
        end /\
      thread_buffers sc' !! t
      = match last_iteration t demo_trace with
        | Some b =>
            Some (demo_cipher (RoundKey demo_ctx)
                    (IncrementIvBy (Iv demo_ctx) (Z.of_nat b)))
        | None => thread_buffers demo_scratch !! t
        end.
Proof.
  assert (H1 : wf_call demo_keyExpSize demo_ctx demo_buf 37) by by_computation.
  assert (H2 : wf_scratch demo_scratch) by by_computation.
  assert (H3 : team_trace 2 (num_blocks_of 37) demo_trace) by by_computation.
  assert (H4 : (2 <= MAX_THREADS)%nat) by by_computation.
  split; [exact H1|]. split; [exact H2|]. split; [exact H3|]. split; [exact H4|].
  exact (false_sharing_rows demo_keyExpSize demo_cipher demo_cipher_length
           2 demo_trace demo_scratch demo_ctx demo_buf 37 H1 H2 H3 H4).
Defined.

Lemma false_sharing_iterations_commute_witness :
  wf_scratch demo_scratch /\ is_block (Iv demo_ctx) /\
  (0 < MAX_THREADS)%nat /\ (1 < MAX_THREADS)%nat /\ 0%nat <> 1%nat /\ 1%nat <> 0%nat /\
  (16 * 1 + 16 <= length demo_buf)%nat /\ 16 * Z.of_nat 1 + 16 < 2 ^ 64 /\
  (16 * 0 + 16 <= length demo_buf)%nat /\ 16 * Z.of_nat 0 + 16 < 2 ^ 64 /\
  exists st',
    (let* st := block_body_false_sharing demo_cipher (RoundKey demo_ctx) (Iv demo_ctx)
                  0 (Z.of_nat 1) (demo_scratch, demo_buf) in
     block_body_false_sharing demo_cipher (RoundKey demo_ctx) (Iv demo_ctx)
       1 (Z.of_nat 0) st) = Ok st' /\
    (let* st := block_body_false_sharing demo_cipher (RoundKey demo_ctx) (Iv demo_ctx)
                  1 (Z.of_nat 0) (demo_scratch, demo_buf) in
     block_body_false_sharing demo_cipher (RoundKey demo_ctx) (Iv demo_ctx)
       0 (Z.of_nat 1) st) = Ok st'.
Proof.
  assert (H1 : wf_scratch demo_scratch) by by_computation.
  assert (H2 : is_block (Iv demo_ctx)) by by_computation.
  assert (H3 : (0 < MAX_THREADS)%nat) by by_computation.
  assert (H4 : (1 < MAX_THREADS)%nat) by by_computation.
  assert (H5 : 0%nat <> 1%nat) by by_computation.
  assert (H6 : 1%nat <> 0%nat) by by_computation.
  assert (H7 : (16 * 1 + 16 <= length demo_buf)%nat) by by_computation.
  assert (H8 : 16 * Z.of_nat 1 + 16 < 2 ^ 64) by by_computation.
  assert (H9 : (16 * 0 + 16 <= length demo_buf)%nat) by by_computation.
  assert (H10 : 16 * Z.of_nat 0 + 16 < 2 ^ 64) by by_computation.
  split; [exact H1|]. split; [exact H2|]. split; [exact H3|]. split; [exact H4|].
  split; [exact H5|]. split; [exact H6|]. split; [exact H7|]. split; [exact H8|].
  split; [exact H9|]. split; [exact H10|].
  exact (false_sharing_iterations_commute demo_cipher demo_cipher_length
           (RoundKey demo_ctx) (Iv demo_ctx) 0 1 1 0 demo_scratch demo_buf
           H1 H2 H3 H4 H5 H6 H7 H8 H9 H10).
Defined.

(** A machine with four threads: the counts 1, 2 and 4 are run, three
    times five passes, and the buffer ends up encrypted once. *)
Lemma benchmark_variant_toggles_data_witness :
  wf_call demo_keyExpSize (demo_init benchmark_key benchmark_iv) demo_buf 37 /\
  Forall is_byte demo_buf /\ wf_scratch demo_scratch /\
  (forall (W : nat) (i : Z), W ∈ tested_counts 4 thread_counts ->
     team_trace W (num_blocks_of 37) (static_schedule 2 W)) /\
  team_trace 2 (num_blocks_of 37) demo_trace /\ team_fits openmp_false_sharing 2 /\
  exists sc' sc1 ctx1 once,
    ctrTransform demo_keyExpSize demo_cipher openmp_false_sharing demo_trace
      demo_scratch (demo_init benchmark_key benchmark_iv) demo_buf 37
      = Ok (sc1, ctx1, once) /\
    bench_variant demo_keyExpSize demo_cipher demo_init openmp_false_sharing
      (tested_counts 4 thread_counts) (bench_iterations 16)
      (fun W _ => static_schedule 2 W) benchmark_key benchmark_iv 37
      (demo_scratch, demo_buf)
    = Ok (sc', if Nat.even (length (tested_counts 4 thread_counts))
               then demo_buf else once).
Proof.
  assert (H1 : wf_call demo_keyExpSize (demo_init benchmark_key benchmark_iv)
                 demo_buf 37) by by_computation.
  assert (H2 : Forall is_byte demo_buf) by by_computation.
  assert (H3 : wf_scratch demo_scratch) by by_computation.
  assert (H4 : forall (W : nat) (i : Z), W ∈ tested_counts 4 thread_counts ->
                 team_trace W (num_blocks_of 37) (static_schedule 2 W)).
  { intros W _ HW. change (tested_counts 4 thread_counts) with [1; 2; 4]%nat in HW.
    change (num_blocks_of 37) with 2%nat.
    repeat (apply elem_of_cons in HW as [->|HW]; [by_computation|]).
    by apply elem_of_nil in HW. }
  assert (H5 : team_trace 2 (num_blocks_of 37) demo_trace) by by_computation.
  assert (H6 : team_fits openmp_false_sharing 2) by by_computation.
  split; [exact H1|]. split; [exact H2|]. split; [exact H3|]. split; [exact H4|].
  split; [exact H5|]. split; [exact H6|].
  exact (benchmark_variant_toggles_data demo_keyExpSize demo_cipher demo_init
           demo_cipher_length openmp_false_sharing 4 16
           (fun W _ => static_schedule 2 W) benchmark_key benchmark_iv 37
           demo_scratch demo_buf 2 demo_trace H1 H2 H3 H4 H5 H6).
Defined.

(** The test with the sequential transform of tiny-AES-c as the reference,
    on a buffer of zeros, with teams of one, two and four threads. *)
Lemma test_correctness_report_witness :
  wf_ctx demo_keyExpSize (demo_init benchmark_key benchmark_iv) /\
  length demo_test_data = Z.to_nat test_size /\
  wf_scratch demo_scratch /\
  AES_CTR_xcrypt_buffer demo_cipher (demo_init benchmark_key benchmark_iv)
    demo_test_data test_size
  = Ok (ctr_context (demo_init benchmark_key benchmark_iv) test_size,
        ctr_buffer demo_cipher (demo_init benchmark_key benchmark_iv)
          demo_test_data test_size) /\
  length (ctr_buffer demo_cipher (demo_init benchmark_key benchmark_iv)
            demo_test_data test_size) = length demo_test_data /\
  team_trace 1 (num_blocks_of test_size) (static_schedule (num_blocks_of test_size) 1) /\
  team_trace 2 (num_blocks_of test_size) (static_schedule (num_blocks_of test_size) 2) /\
  team_trace 4 (num_blocks_of test_size) (static_schedule (num_blocks_of test_size) 4) /\
  (4 <= MAX_THREADS)%nat /\
  exists sc' e ctx_par data_par,
    test_correctness demo_keyExpSize demo_cipher demo_init
      (AES_CTR_xcrypt_buffer demo_cipher)
      (static_schedule (num_blocks_of test_size) 1)
      (static_schedule (num_blocks_of test_size) 2)
      (static_schedule (num_blocks_of test_size) 4)
      demo_scratch benchmark_key benchmark_iv demo_test_data
    = Ok (sc', mkReport (if decide (e = 0) then 0 else 1) e e e) /\
    AES_CTR_xcrypt_buffer_openmp demo_keyExpSize demo_cipher
      (static_schedule (num_blocks_of test_size) 1)
      (demo_init benchmark_key benchmark_iv) demo_test_data test_size
    = Ok (ctx_par, data_par) /\
    0 <= e <= test_size /\
    (e = 0 <->
     ctr_buffer demo_cipher (demo_init benchmark_key benchmark_iv)
       demo_test_data test_size = data_par).
Proof.
  assert (H1 : wf_ctx demo_keyExpSize (demo_init benchmark_key benchmark_iv))
    by by_computation.
  assert (H2 : length demo_test_data = Z.to_nat test_size)
    by apply length_replicate.
  assert (H3 : wf_scratch demo_scratch) by by_computation.
  assert (H4 : AES_CTR_xcrypt_buffer demo_cipher
                 (demo_init benchmark_key benchmark_iv) demo_test_data test_size
               = Ok (ctr_context (demo_init benchmark_key benchmark_iv) test_size,
                     ctr_buffer demo_cipher (demo_init benchmark_key benchmark_iv)
                       demo_test_data test_size)).
  { apply (serial_spec demo_keyExpSize demo_cipher demo_cipher_length).
    split; [exact H1|]. split; [by_computation|].
    rewrite H2, Z2Nat.id; [lia | by_computation]. }
  assert (H5 : length (ctr_buffer demo_cipher (demo_init benchmark_key benchmark_iv)
                         demo_test_data test_size) = length demo_test_data)
    by apply length_xor_where.
  assert (H6 : team_trace 1 (num_blocks_of test_size)
                 (static_schedule (num_blocks_of test_size) 1))
    by (apply static_schedule_team_trace; lia).
  assert (H7 : team_trace 2 (num_blocks_of test_size)
                 (static_schedule (num_blocks_of test_size) 2))
    by (apply static_schedule_team_trace; lia).
  assert (H8 : team_trace 4 (num_blocks_of test_size)
                 (static_schedule (num_blocks_of test_size) 4))
    by (apply static_schedule_team_trace; lia).
  assert (H9 : (4 <= MAX_THREADS)%nat) by by_computation.
  split; [exact H1|]. split; [exact H2|]. split; [exact H3|]. split; [exact H4|].
  split; [exact H5|]. split; [exact H6|]. split; [exact H7|]. split; [exact H8|].
  split; [exact H9|].
  exact (test_correctness_report demo_keyExpSize demo_cipher demo_init
           (AES_CTR_xcrypt_buffer demo_cipher) demo_cipher_length
           1 (static_schedule (num_blocks_of test_size) 1)
           2 (static_schedule (num_blocks_of test_size) 2)
           4 (static_schedule (num_blocks_of test_size) 4)
           demo_scratch benchmark_key benchmark_iv demo_test_data
           (ctr_context (demo_init benchmark_key benchmark_iv) test_size)
           (ctr_buffer demo_cipher (demo_init benchmark_key benchmark_iv)
              demo_test_data test_size)
           H1 H2 H3 H4 H5 H6 H7 H8 H9).
Defined.
